(** * LendingPlatform: a shallow embedding of the lending contract

    The contract [LendingPlatform] (Solidity ^0.8.0) keeps a ledger of loans,
    a risk score per borrower written by one trusted oracle, and a whitelist
    of ERC20 tokens accepted as collateral.

    Conventions of the embedding:
    - [uint256] and [address] values are binary naturals ([N]); arithmetic is
      the checked arithmetic of Solidity 0.8 (overflow, underflow and division
      by zero abort with a [Panic]);
    - a Solidity [mapping] is a finite map read with a default (every key
      that was never assigned reads as the zero value);
    - a contract function is a computation over the [World] that either
      completes or aborts; an aborted transaction is rolled back by [execute];
    - the ERC20 token called by [applyForLoan] is a foreign contract: what it
      answers is an input of the transaction ([IERC20]). Tokens are assumed
      not to call back into the platform while they execute [transferFrom]
      (the repository's own token, an OpenZeppelin ERC20, does not). *)

From stdpp Require Import base numbers option list gmap strings.

Open Scope N_scope.

(** ** Machine types *)

Abbreviation uint256 := N (only parsing).
Abbreviation address := N (only parsing).

Definition MAX_UINT256 : uint256 := 2 ^ 256 - 1.

(** [address(0)], the sentinel for ETH collateral. *)
Definition address0 : address := 0.

(** Reading [m[k]] from a Solidity mapping: absent keys read as the default. *)
Definition mapping_read {V : Type} (d : V) (m : gmap N V) (k : N) : V :=
  default d (m !! k).

(** ** Data *)

Record Loan : Type := mkLoan {
  loanId : uint256;
  borrower : address;
  principal : uint256;
  interestRate : uint256;
  tenure : uint256;
  collateralAmount : uint256;
  collateralToken : address;
  isRepaid : bool
}.

Record Storage : Type := mkStorage {
  loans : list Loan;
  trustedOracle : address;
  borrowerRiskScore : gmap address uint256;
  supportedCollateral : gmap address bool;
  nextLoanId : uint256
}.

Inductive Event : Type :=
| ScoreUpdated (_borrower _score : N)
| LoanDisbursed (_loanId _borrower _principal _rate _collateralToken _collateralAmount : N)
| LoanRepaid (_loanId _borrower _amount : N)
| CollateralAdded (_token : N).

(** A completed call of [transferFrom] on a token contract. *)
Record Pull : Type := mkPull {
  pull_token : address;
  pull_from : address;
  pull_to : address;
  pull_amount : uint256;
  pull_result : bool
}.

(** What the chain holds for the contract: its own address, the ETH it owns,
    its storage, the events it has logged, and the token transfers it has
    requested. *)
Record World : Type := mkWorld {
  this : address;
  balance : uint256;
  storage : Storage;
  logs : list Event;
  pulls : list Pull
}.

(** ** Aborting computations *)

Inductive Revert : Type :=
| Require_failed (reason : string)
| Panic (code : N)
| Callee_reverted.

(** Panic codes of Solidity 0.8. *)
Definition PANIC_ARITHMETIC : N := 17.       (* 0x11 *)
Definition PANIC_DIVISION_BY_ZERO : N := 18. (* 0x12 *)

(** The error names of the specification, as the revert reasons of the code. *)
Definition Unauthorized : Revert :=
  Require_failed "Caller is not the trusted Oracle/Backend.".
Definition InvalidScore : Revert :=
  Require_failed "Score must be between 0 and 100.".
Definition NotScored : Revert :=
  Require_failed "Risk score is missing or invalid.".
Definition CollateralMismatch : Revert :=
  Require_failed "Incorrect ETH collateral sent.".
Definition UnsupportedCollateral : Revert :=
  Require_failed "Token not supported.".
Definition UnexpectedNativeValue : Revert :=
  Require_failed "Do not send ETH with ERC20 collateral.".
Definition TransferFailed : Revert :=
  Require_failed "Token transfer failed. Check allowance.".

(** The result of running a piece of contract code: [Abort] keeps the world as
    it stood when execution stopped (the chain discards it afterwards). *)
Inductive Outcome (A : Type) : Type :=
| Done (a : A) (w : World)
| Abort (e : Revert) (w : World).
Arguments Done {A} a w.
Arguments Abort {A} e w.

Definition Tx (A : Type) : Type := World -> Outcome A.

Global Instance Tx_ret : MRet Tx := λ A a w, Done a w.
Global Instance Tx_bind : MBind Tx := λ A B f m w,
  match m w with
  | Done a w' => f a w'
  | Abort e w' => Abort e w'
  end.

Definition require (cond : bool) (reason : string) : Tx unit :=
  λ w, if cond then Done tt w else Abort (Require_failed reason) w.

Definition sload {A : Type} (field : Storage -> A) : Tx A :=
  λ w, Done (field (storage w)) w.

Definition sstore (update : Storage -> Storage) : Tx unit :=
  λ w, Done tt (mkWorld (this w) (balance w) (update (storage w)) (logs w) (pulls w)).

Definition emit (e : Event) : Tx unit :=
  λ w, Done tt (mkWorld (this w) (balance w) (storage w) (logs w ++ [e]) (pulls w)).

Definition address_this : Tx N :=
  λ w, Done (this w) w.

Definition checked_add (a b : N) : Tx N :=
  λ w, if a + b <=? MAX_UINT256 then Done (a + b) w else Abort (Panic PANIC_ARITHMETIC) w.

Definition checked_sub (a b : N) : Tx N :=
  λ w, if b <=? a then Done (a - b) w else Abort (Panic PANIC_ARITHMETIC) w.

Definition checked_div (a b : N) : Tx N :=
  λ w, if b =? 0 then Abort (Panic PANIC_DIVISION_BY_ZERO) w else Done (a / b) w.

(** ** The foreign token *)

Inductive TokenReply : Type :=
| Returns (success : bool)
| Reverts.

(** [tokens token from to amount]: the answer of
    [IERC20(token).transferFrom(from, to, amount)]. *)
Definition IERC20 : Type := address -> address -> address -> uint256 -> TokenReply.

Definition transferFrom (tokens : IERC20) (token from to amount : N) : Tx bool :=
  λ w, match tokens token from to amount with
       | Returns b =>
           Done b (mkWorld (this w) (balance w) (storage w) (logs w)
                           (pulls w ++ [mkPull token from to amount b]))
       | Reverts => Abort Callee_reverted w
       end.

(** ** The contract *)

Record Msg : Type := mkMsg {
  sender : address;
  value : uint256
}.

(** [constructor(address _oracle)], deployed at address [self]. *)
Definition constructor (self _oracle : N) : World :=
  mkWorld self 0 (mkStorage [] _oracle ∅ ∅ 1) [] [].

(** [modifier onlyOracle]. *)
Definition onlyOracle (caller : N) (body : Tx unit) : Tx unit :=
  oracle ← sload trustedOracle;
  require (caller =? oracle) "Caller is not the trusted Oracle/Backend.";;
  body.

Definition setRiskScore (caller : N) (_borrower _score : N) : Tx unit :=
  onlyOracle caller (
    require (_score <=? 100) "Score must be between 0 and 100.";;
    sstore (λ s, mkStorage (loans s) (trustedOracle s)
                           (<[_borrower := _score]> (borrowerRiskScore s))
                           (supportedCollateral s) (nextLoanId s));;
    emit (ScoreUpdated _borrower _score)).

Definition addCollateralToken (caller : N) (_token : N) : Tx unit :=
  onlyOracle caller (
    sstore (λ s, mkStorage (loans s) (trustedOracle s) (borrowerRiskScore s)
                           (<[_token := true]> (supportedCollateral s))
                           (nextLoanId s));;
    emit (CollateralAdded _token)).

(** Lines 69-82 of the contract: the collateral branch of [applyForLoan]. *)
Definition collateralHandling (msg : Msg) (tokens : IERC20)
    (_collateralAmount _collateralToken : N) : Tx unit :=
  if _collateralToken =? address0 then
    require (value msg =? _collateralAmount) "Incorrect ETH collateral sent."
  else
    supported ← sload (λ s, mapping_read false (supportedCollateral s) _collateralToken);
    require supported "Token not supported.";;
    require (value msg =? 0) "Do not send ETH with ERC20 collateral.";;
    self ← address_this;
    success ← transferFrom tokens _collateralToken (sender msg) self _collateralAmount;
    require success "Token transfer failed. Check allowance.".

(** Lines 84-105: rate, ledger entry, counter, event. *)
Definition recordLoan (msg : Msg) (riskScore : N)
    (_principal _tenure _collateralAmount _collateralToken : N) : Tx unit :=
  finalRate ← checked_div 100 riskScore;
  id ← sload nextLoanId;
  sstore (λ s, mkStorage
                 (loans s ++ [mkLoan id (sender msg) _principal finalRate _tenure
                                     _collateralAmount _collateralToken false])
                 (trustedOracle s) (borrowerRiskScore s) (supportedCollateral s)
                 (nextLoanId s));;
  next ← sload nextLoanId;
  next' ← checked_add next 1;
  sstore (λ s, mkStorage (loans s) (trustedOracle s) (borrowerRiskScore s)
                         (supportedCollateral s) next');;
  current ← sload nextLoanId;
  logged ← checked_sub current 1;
  emit (LoanDisbursed logged (sender msg) _principal finalRate
                      _collateralToken _collateralAmount).

(** Lines 64-82: everything [applyForLoan] does before it computes the rate;
    the result is the local variable [riskScore]. *)
Definition applyForLoan_guards (msg : Msg) (tokens : IERC20)
    (_collateralAmount _collateralToken : N) : Tx N :=
  riskScore ← sload (λ s, mapping_read 0 (borrowerRiskScore s) (sender msg));
  require (0 <? riskScore) "Risk score is missing or invalid.";;
  collateralHandling msg tokens _collateralAmount _collateralToken;;
  mret riskScore.

Definition applyForLoan (msg : Msg) (tokens : IERC20)
    (_principal _tenure _collateralAmount _collateralToken : N) : Tx unit :=
  riskScore ← sload (λ s, mapping_read 0 (borrowerRiskScore s) (sender msg));
  require (0 <? riskScore) "Risk score is missing or invalid.";;
  collateralHandling msg tokens _collateralAmount _collateralToken;;
  recordLoan msg riskScore _principal _tenure _collateralAmount _collateralToken.

(** ** Public getters (view functions) *)

Definition get_borrowerRiskScore (_borrower : N) : Tx N :=
  sload (λ s, mapping_read 0 (borrowerRiskScore s) _borrower).

Definition get_supportedCollateral (_token : N) : Tx bool :=
  sload (λ s, mapping_read false (supportedCollateral s) _token).

(** Direct reads, for statements. *)
Definition scoreOf (w : World) (a : N) : N :=
  mapping_read 0 (borrowerRiskScore (storage w)) a.

Definition isSupported (w : World) (t : N) : bool :=
  mapping_read false (supportedCollateral (storage w)) t.

(** ** Transactions *)

Inductive Call : Type :=
| SetRiskScore (caller _borrower _score : N)
| AddCollateralToken (caller _token : N)
| ApplyForLoan (msg : Msg) (tokens : IERC20)
               (_principal _tenure _collateralAmount _collateralToken : N).

Definition body (c : Call) : Tx unit :=
  match c with
  | SetRiskScore caller b s => setRiskScore caller b s
  | AddCollateralToken caller t => addCollateralToken caller t
  | ApplyForLoan msg tokens p t ca ct => applyForLoan msg tokens p t ca ct
  end.

(** Only [applyForLoan] is payable. *)
Definition received (c : Call) : N :=
  match c with
  | ApplyForLoan msg _ _ _ _ _ => value msg
  | _ => 0
  end.

Definition credit (v : N) (w : World) : World :=
  mkWorld (this w) (balance w + v) (storage w) (logs w) (pulls w).

Inductive Receipt : Type :=
| Success
| Reverted (e : Revert).

(** One transaction: the value is credited, the body runs, and an abort
    restores the world the transaction started from. *)
Definition execute (w : World) (c : Call) : World * Receipt :=
  match body c (credit (received c) w) with
  | Done _ w' => (w', Success)
  | Abort e _ => (w, Reverted e)
  end.

Definition run (w : World) (cs : list Call) : World :=
  foldl (λ w c, (execute w c).1) w cs.

(** A borrower's stored score following the words of the specification: the
    number together with a flag telling whether it was ever written. The
    contract has no such read; it is the yardstick for [get_borrowerRiskScore]. *)
Definition spec_getScore (_borrower : address) (w : World) : uint256 * bool :=
  match borrowerRiskScore (storage w) !! _borrower with
  | Some s => (s, true)
  | None => (0, false)
  end.

(** The ledger numbers its loans 1, 2, 3, ... and the counter is one ahead. *)
Definition ledger_numbered (w : World) : Prop :=
  loanId <$> loans (storage w) = N.of_nat <$> seq 1 (length (loans (storage w)))
  ∧ nextLoanId (storage w) = N.of_nat (length (loans (storage w))) + 1.

(** The world after the loan was pushed (and before the counter moves). *)
Definition pushed (msg : Msg) (riskScore p t ca ct : N) (w : World) : World :=
  mkWorld (this w) (balance w)
    (mkStorage
       (loans (storage w) ++
          [mkLoan (nextLoanId (storage w)) (sender msg) p (100 / riskScore) t ca ct false])
       (trustedOracle (storage w)) (borrowerRiskScore (storage w))
       (supportedCollateral (storage w)) (nextLoanId (storage w)))
    (logs w) (pulls w).

(** The world after [recordLoan] completed. *)
Definition disbursed (msg : Msg) (riskScore p t ca ct : N) (w : World) : World :=
  mkWorld (this w) (balance w)
    (mkStorage
       (loans (storage w) ++
          [mkLoan (nextLoanId (storage w)) (sender msg) p (100 / riskScore) t ca ct false])
       (trustedOracle (storage w)) (borrowerRiskScore (storage w))
       (supportedCollateral (storage w)) (nextLoanId (storage w) + 1))
    (logs w ++ [LoanDisbursed (nextLoanId (storage w)) (sender msg) p (100 / riskScore) ct ca])
    (pulls w).

(** ** Sample worlds, used to run the contract on concrete inputs *)

Definition sample_oracle : address := 7.
Definition sample_borrower : address := 42.
Definition sample_stranger : address := 8.
Definition sample_token : address := 77.

Definition sample_deployed : World := constructor 900 sample_oracle.

(** The deployed contract after the oracle scored [sample_borrower] with [s]. *)
Definition sample_scored (s : uint256) : World :=
  (execute sample_deployed (SetRiskScore sample_oracle sample_borrower s)).1.

(** Tokens that accept or refuse every [transferFrom]. *)
Definition accepting_tokens : IERC20 := λ _ _ _ _, Returns true.
Definition refusing_tokens : IERC20 := λ _ _ _ _, Returns false.

(** A short history: the oracle scores the borrower with 50 and whitelists a
    token, and the borrower takes one ETH-backed and one token-backed loan. *)
Definition sample_history : list Call :=
  [ SetRiskScore sample_oracle sample_borrower 50;
    ApplyForLoan (mkMsg sample_borrower 5) accepting_tokens 10 12 5 0;
    AddCollateralToken sample_oracle sample_token;
    ApplyForLoan (mkMsg sample_borrower 0) accepting_tokens 20 6 3 sample_token ].

(** What a computation returned, if it completed. *)
Definition returned {A : Type} (o : Outcome A) : option A :=
  match o with
  | Done a _ => Some a
  | Abort _ _ => None
  end.

(** Whether a call is a [setRiskScore] aimed at borrower [b]. *)
Definition writes_score (b : address) (c : Call) : bool :=
  match c with
  | SetRiskScore _ b' _ => b' =? b
  | _ => false
  end.

(** ** Summaries of the ledger, for the invariants *)

(** The account a call comes from. *)
Definition caller_of (c : Call) : address :=
  match c with
  | SetRiskScore caller _ _ => caller
  | AddCollateralToken caller _ => caller
  | ApplyForLoan msg _ _ _ _ _ => sender msg
  end.

(** The ETH a loan record says was posted with it. *)
Definition eth_posted (l : Loan) : uint256 :=
  if collateralToken l =? address0 then collateralAmount l else 0.

Definition eth_collateral (ls : list Loan) : uint256 :=
  foldr (λ l total, eth_posted l + total) 0 ls.

(** The token transfer a loan record stands for (none for an ETH loan). *)
Definition pull_of (self : address) (l : Loan) : list Pull :=
  if collateralToken l =? address0 then []
  else [mkPull (collateralToken l) (borrower l) self (collateralAmount l) true].

Definition token_pulls (self : address) (ls : list Loan) : list Pull :=
  ls ≫= pull_of self.

(** The [LoanDisbursed] event a loan record stands for. *)
Definition disbursement (l : Loan) : Event :=
  LoanDisbursed (loanId l) (borrower l) (principal l) (interestRate l)
                (collateralToken l) (collateralAmount l).

Definition as_disbursement (e : Event) : option Event :=
  match e with
  | LoanDisbursed _ _ _ _ _ _ => Some e
  | _ => None
  end.

Definition is_LoanRepaid (e : Event) : bool :=
  match e with
  | LoanRepaid _ _ _ => true
  | _ => false
  end.

(** The world a successful [applyForLoan] transaction leaves. *)
Definition issued (w : World) (msg : Msg) (p t ca ct : N) : World :=
  mkWorld (this w) (balance w + value msg)
    (mkStorage
       (loans (storage w) ++
          [mkLoan (nextLoanId (storage w)) (sender msg) p
                  (100 / scoreOf w (sender msg)) t ca ct false])
       (trustedOracle (storage w)) (borrowerRiskScore (storage w))
       (supportedCollateral (storage w)) (nextLoanId (storage w) + 1))
    (logs w ++
       [LoanDisbursed (nextLoanId (storage w)) (sender msg) p
                      (100 / scoreOf w (sender msg)) ct ca])
    (pulls w ++
       (if ct =? address0 then [] else [mkPull ct (sender msg) (this w) ca true])).

(** The world a successful [setRiskScore] transaction leaves. *)
Definition scored (w : World) (b s : N) : World :=
  mkWorld (this w) (balance w)
    (mkStorage (loans (storage w)) (trustedOracle (storage w))
       (<[b := s]> (borrowerRiskScore (storage w)))
       (supportedCollateral (storage w)) (nextLoanId (storage w)))
    (logs w ++ [ScoreUpdated b s]) (pulls w).

(** The world a successful [addCollateralToken] transaction leaves. *)
Definition whitelisted (w : World) (t : N) : World :=
  mkWorld (this w) (balance w)
    (mkStorage (loans (storage w)) (trustedOracle (storage w))
       (borrowerRiskScore (storage w))
       (<[t := true]> (supportedCollateral (storage w)))
       (nextLoanId (storage w)))
    (logs w ++ [CollateralAdded t]) (pulls w).

(** A world whose loan counter has reached the top of uint256 (beyond any
    number of loans that can be made; it exercises the checked increment). *)
Definition sample_saturated : World :=
  mkWorld 900 0
    (mkStorage [] sample_oracle (<[sample_borrower := 50]> ∅) ∅ MAX_UINT256) [] [].

(** The same, with [sample_token] on the whitelist. *)
Definition sample_saturated_listed : World :=
  mkWorld 900 0
    (mkStorage [] sample_oracle (<[sample_borrower := 50]> ∅)
               (<[sample_token := true]> ∅) MAX_UINT256) [] [].

(** A token whose [transferFrom] always reverts. *)
Definition reverting_tokens : IERC20 := λ _ _ _ _, Reverts.

(** ** The deployment script (scripts/deploy.js)

    [main] deploys MockUSDC, deploys the platform with the second signer as
    oracle, and has the oracle whitelist MockUSDC. The token's deployment
    shows here only as the address it got. *)
Definition deploy_main (lendingPlatform oracle mockUsdc : address) : World * Receipt :=
  let deployed := constructor lendingPlatform oracle in
  execute deployed (AddCollateralToken oracle mockUsdc).

(** * Proofs *)

Ltac tx_unfold :=
  unfold execute, body, received, credit, applyForLoan, applyForLoan_guards,
    recordLoan, collateralHandling, setRiskScore, addCollateralToken, onlyOracle,
    get_borrowerRiskScore, get_supportedCollateral, transferFrom,
    checked_add, checked_sub, checked_div, address_this, emit, sstore, sload,
    require, mbind, Tx_bind, mret, Tx_ret in *.

(** ** Equations of the contract functions *)

Lemma setRiskScore_eq caller b s w :
  setRiskScore caller b s w =
    if caller =? trustedOracle (storage w) then
      if s <=? 100 then
        Done tt (mkWorld (this w) (balance w)
                   (mkStorage (loans (storage w)) (trustedOracle (storage w))
                      (<[b := s]> (borrowerRiskScore (storage w)))
                      (supportedCollateral (storage w)) (nextLoanId (storage w)))
                   (logs w ++ [ScoreUpdated b s]) (pulls w))
      else Abort InvalidScore w
    else Abort Unauthorized w.
Proof.
  tx_unfold; simpl.
  destruct (caller =? _); [destruct (s <=? 100)|]; reflexivity.
Qed.

Lemma addCollateralToken_eq caller t w :
  addCollateralToken caller t w =
    if caller =? trustedOracle (storage w) then
      Done tt (mkWorld (this w) (balance w)
                 (mkStorage (loans (storage w)) (trustedOracle (storage w))
                    (borrowerRiskScore (storage w))
                    (<[t := true]> (supportedCollateral (storage w)))
                    (nextLoanId (storage w)))
                 (logs w ++ [CollateralAdded t]) (pulls w))
    else Abort Unauthorized w.
Proof.
  tx_unfold; simpl. destruct (caller =? _); reflexivity.
Qed.

Lemma collateralHandling_eq msg tokens ca ct w :
  collateralHandling msg tokens ca ct w =
    if ct =? 0 then
      if value msg =? ca then Done tt w else Abort CollateralMismatch w
    else if isSupported w ct then
      if value msg =? 0 then
        match tokens ct (sender msg) (this w) ca with
        | Returns true =>
            Done tt (mkWorld (this w) (balance w) (storage w) (logs w)
                       (pulls w ++ [mkPull ct (sender msg) (this w) ca true]))
        | Returns false =>
            Abort TransferFailed
              (mkWorld (this w) (balance w) (storage w) (logs w)
                 (pulls w ++ [mkPull ct (sender msg) (this w) ca false]))
        | Reverts => Abort Callee_reverted w
        end
      else Abort UnexpectedNativeValue w
    else Abort UnsupportedCollateral w.
Proof.
  unfold isSupported, address0. tx_unfold; simpl. unfold address0.
  destruct (ct =? 0); [destruct (value msg =? ca); reflexivity|].
  destruct (mapping_read false _ ct); [|reflexivity].
  destruct (value msg =? 0); [|reflexivity]. simpl.
  destruct (tokens _ _ _ _) as [[|]|]; reflexivity.
Qed.

Lemma recordLoan_eq msg s p t ca ct w :
  recordLoan msg s p t ca ct w =
    if s =? 0 then Abort (Panic PANIC_DIVISION_BY_ZERO) w
    else if nextLoanId (storage w) + 1 <=? MAX_UINT256
         then Done tt (disbursed msg s p t ca ct w)
         else Abort (Panic PANIC_ARITHMETIC) (pushed msg s p t ca ct w).
Proof.
  unfold disbursed, pushed. tx_unfold; simpl.
  destruct (s =? 0); [reflexivity|]. simpl.
  destruct (_ <=? MAX_UINT256); [|reflexivity]. simpl.
  destruct (N.leb_spec 1 (nextLoanId (storage w) + 1)) as [_|]; [|lia].
  repeat f_equal. lia.
Qed.

Lemma applyForLoan_eq msg tokens p t ca ct w :
  applyForLoan msg tokens p t ca ct w =
    if 0 <? scoreOf w (sender msg) then
      match collateralHandling msg tokens ca ct w with
      | Done _ w1 => recordLoan msg (scoreOf w (sender msg)) p t ca ct w1
      | Abort e w1 => Abort e w1
      end
    else Abort NotScored w.
Proof.
  unfold applyForLoan, scoreOf, NotScored, sload, require, mbind, Tx_bind; simpl.
  destruct (0 <? _); reflexivity.
Qed.

Lemma applyForLoan_guards_eq msg tokens ca ct w :
  applyForLoan_guards msg tokens ca ct w =
    if 0 <? scoreOf w (sender msg) then
      match collateralHandling msg tokens ca ct w with
      | Done _ w1 => Done (scoreOf w (sender msg)) w1
      | Abort e w1 => Abort e w1
      end
    else Abort NotScored w.
Proof.
  unfold applyForLoan_guards, scoreOf, NotScored, sload, require, mbind, Tx_bind,
    mret, Tx_ret; simpl.
  destruct (0 <? _); [|reflexivity]. destruct (collateralHandling _ _ _ _ _); reflexivity.
Qed.

(** ** What a completed call leaves behind *)

Lemma collateralHandling_Done msg tokens ca ct w u w1 :
  collateralHandling msg tokens ca ct w = Done u w1 ->
  this w1 = this w ∧ balance w1 = balance w ∧ storage w1 = storage w
  ∧ logs w1 = logs w
  ∧ pulls w1 = pulls w ++
      (if ct =? 0 then [] else [mkPull ct (sender msg) (this w) ca true]).
Proof.
  rewrite collateralHandling_eq.
  destruct (ct =? 0).
  - destruct (value msg =? ca); [|discriminate].
    intros; simplify_eq. rewrite app_nil_r. by repeat split.
  - destruct (isSupported w ct); [|discriminate].
    destruct (value msg =? 0); [|discriminate].
    destruct (tokens _ _ _ _) as [[|]|]; try discriminate.
    intros; simplify_eq. by repeat split.
Qed.

Lemma applyForLoan_Done msg tokens p t ca ct w u w' :
  applyForLoan msg tokens p t ca ct w = Done u w' ->
  ∃ w1, collateralHandling msg tokens ca ct w = Done tt w1
        ∧ 1 <= scoreOf w (sender msg)
        ∧ nextLoanId (storage w) + 1 <= MAX_UINT256
        ∧ w' = disbursed msg (scoreOf w (sender msg)) p t ca ct w1.
Proof.
  rewrite applyForLoan_eq.
  destruct (N.ltb_spec 0 (scoreOf w (sender msg))) as [Hs|]; [|discriminate].
  destruct (collateralHandling _ _ _ _ _) as [[] w1|] eqn:Hc; [|discriminate].
  rewrite recordLoan_eq.
  destruct (N.eqb_spec (scoreOf w (sender msg)) 0); [lia|].
  destruct (collateralHandling_Done _ _ _ _ _ _ _ Hc) as (_ & _ & Hst & _).
  rewrite Hst.
  destruct (N.leb_spec (nextLoanId (storage w) + 1) MAX_UINT256); [|discriminate].
  intros; simplify_eq. exists w1. repeat split; lia.
Qed.

Lemma credit_0 w : credit 0 w = w.
Proof. unfold credit. rewrite N.add_0_r. by destruct w. Qed.

Lemma execute_outcome w c :
  (∃ e, execute w c = (w, Reverted e)) ∨ (∃ w', execute w c = (w', Success)).
Proof.
  unfold execute. destruct (body c _); eauto.
Qed.

Lemma execute_Reverted w c w' e :
  execute w c = (w', Reverted e) -> w' = w.
Proof.
  unfold execute. destruct (body c _); [discriminate|]. by intros [= <- _].
Qed.

Lemma execute_applyForLoan_Success w msg tokens p t ca ct w' :
  execute w (ApplyForLoan msg tokens p t ca ct) = (w', Success) ->
  1 <= scoreOf w (sender msg)
  ∧ nextLoanId (storage w) < MAX_UINT256
  ∧ storage w' =
      mkStorage
        (loans (storage w) ++
           [mkLoan (nextLoanId (storage w)) (sender msg) p
                   (100 / scoreOf w (sender msg)) t ca ct false])
        (trustedOracle (storage w)) (borrowerRiskScore (storage w))
        (supportedCollateral (storage w)) (nextLoanId (storage w) + 1)
  ∧ balance w' = balance w + value msg
  ∧ logs w' = logs w ++
      [LoanDisbursed (nextLoanId (storage w)) (sender msg) p
                     (100 / scoreOf w (sender msg)) ct ca]
  ∧ pulls w' = pulls w ++
      (if ct =? 0 then [] else [mkPull ct (sender msg) (this w) ca true])
  ∧ this w' = this w.
Proof.
  unfold execute; simpl.
  destruct (applyForLoan _ _ _ _ _ _ _) as [u w2|] eqn:Ha; [|discriminate].
  intros [= <-].
  apply applyForLoan_Done in Ha as (w1 & Hc & Hs & Hn & ->).
  apply collateralHandling_Done in Hc as (Ht & Hb & Hst & Hl & Hp).
  unfold disbursed, scoreOf in *; simpl in *.
  rewrite Hst, Hb, Hl, Hp, Ht. simpl.
  repeat split; try done. lia.
Qed.

Lemma execute_setRiskScore_Success w caller b s w' :
  execute w (SetRiskScore caller b s) = (w', Success) ->
  caller = trustedOracle (storage w) ∧ s <= 100
  ∧ w' = mkWorld (this w) (balance w)
           (mkStorage (loans (storage w)) (trustedOracle (storage w))
              (<[b := s]> (borrowerRiskScore (storage w)))
              (supportedCollateral (storage w)) (nextLoanId (storage w)))
           (logs w ++ [ScoreUpdated b s]) (pulls w).
Proof.
  unfold execute; simpl. rewrite setRiskScore_eq; simpl.
  destruct (N.eqb_spec caller (trustedOracle (storage w))); [|discriminate].
  destruct (N.leb_spec s 100); [|discriminate].
  intros [= <-]. rewrite N.add_0_r. by repeat split.
Qed.

Lemma execute_addCollateralToken_Success w caller t w' :
  execute w (AddCollateralToken caller t) = (w', Success) ->
  caller = trustedOracle (storage w)
  ∧ w' = mkWorld (this w) (balance w)
           (mkStorage (loans (storage w)) (trustedOracle (storage w))
              (borrowerRiskScore (storage w))
              (<[t := true]> (supportedCollateral (storage w)))
              (nextLoanId (storage w)))
           (logs w ++ [CollateralAdded t]) (pulls w).
Proof.
  unfold execute; simpl. rewrite addCollateralToken_eq; simpl.
  destruct (N.eqb_spec caller (trustedOracle (storage w))); [|discriminate].
  intros [= <-]. rewrite N.add_0_r. by repeat split.
Qed.

Lemma run_cons w c cs : run w (c :: cs) = run (execute w c).1 cs.
Proof. reflexivity. Qed.

(** ** Interest rate *)

(** C1: for a caller whose stored score s lies in 1..100, a successful
    applyForLoan appends a loan whose interestRate is 100 / s (integer
    division); score 25 gives rate 4, score 100 gives rate 1 and score 1 gives
    rate 100. *)
Theorem applyForLoan_rate_is_100_div_score w msg tokens p t ca ct w' s :
  scoreOf w (sender msg) = s ->
  1 <= s <= 100 ->
  execute w (ApplyForLoan msg tokens p t ca ct) = (w', Success) ->
  ∃ l, loans (storage w') = loans (storage w) ++ [l]
       ∧ interestRate l = 100 / s
       ∧ (s = 25 -> interestRate l = 4)
       ∧ (s = 100 -> interestRate l = 1)
       ∧ (s = 1 -> interestRate l = 100).
Proof.
  intros Hs Hrange Hex.
  apply execute_applyForLoan_Success in Hex as (_ & _ & Hst & _).
  rewrite Hst, Hs; simpl.
  eexists; split; [reflexivity|]; simpl.
  split; [reflexivity|].
  repeat split; intros ->; reflexivity.
Qed.

Lemma applyForLoan_rate_witness :
  let w := sample_scored 25 in
  let c := ApplyForLoan (mkMsg sample_borrower 5) accepting_tokens 10 12 5 0 in
  ∃ l, loans (storage (execute w c).1) = loans (storage w) ++ [l]
       ∧ interestRate l = 100 / 25
       ∧ (25 = 25 -> interestRate l = 4)
       ∧ (25 = 100 -> interestRate l = 1)
       ∧ (25 = 1 -> interestRate l = 100).
Proof.
  intros w c.
  apply (applyForLoan_rate_is_100_div_score w (mkMsg sample_borrower 5)
           accepting_tokens 10 12 5 0 (execute w c).1 25).
  - vm_compute; reflexivity.
  - lia.
  - vm_compute; reflexivity.
Defined.

(** ** Unscored borrowers *)

(** A borrower that no call has scored has no entry in the score map, and a
    borrower the oracle has just scored with [s] has the entry [s]. *)
Lemma unwritten_score_stays_absent cs w b :
  borrowerRiskScore (storage w) !! b = None ->
  Forall (λ c, writes_score b c = false) cs ->
  borrowerRiskScore (storage (run w cs)) !! b = None.
Proof.
  revert w. induction cs as [|c cs IH]; intros w Hw Hcs; [done|].
  apply Forall_cons in Hcs as [Hc Hcs].
  rewrite run_cons. apply IH; [|done].
  destruct (execute_outcome w c) as [[e ->]|[w' Hex]]; [done|].
  rewrite Hex; simpl.
  destruct c as [caller b' s|caller t|msg tokens p t ca ct].
  - apply execute_setRiskScore_Success in Hex as (_ & _ & ->); simpl.
    simpl in Hc. apply N.eqb_neq in Hc. by rewrite lookup_insert_ne.
  - apply execute_addCollateralToken_Success in Hex as (_ & ->). done.
  - apply execute_applyForLoan_Success in Hex as (_ & _ & Hst & _).
    by rewrite Hst.
Qed.

Lemma never_scored_is_absent self oracle cs b :
  Forall (λ c, writes_score b c = false) cs ->
  borrowerRiskScore (storage (run (constructor self oracle) cs)) !! b = None.
Proof. by apply unwritten_score_stays_absent. Qed.

Lemma scored_is_present w caller b s w' :
  execute w (SetRiskScore caller b s) = (w', Success) ->
  borrowerRiskScore (storage w') !! b = Some s.
Proof.
  intros Hex. apply execute_setRiskScore_Success in Hex as (_ & _ & ->); simpl.
  by rewrite lookup_insert_eq.
Qed.

(** C2: when the caller's score was never written, or was written as 0,
    applyForLoan fails with NotScored; the code stops before any write or
    token call, and the transaction leaves the loans, nextLoanId, the ETH
    balance and the token transfers as they were. *)
Theorem applyForLoan_unscored_fails w msg tokens p t ca ct :
  borrowerRiskScore (storage w) !! sender msg = None
  ∨ borrowerRiskScore (storage w) !! sender msg = Some 0 ->
  let entered := credit (value msg) w in
  let after := execute w (ApplyForLoan msg tokens p t ca ct) in
  applyForLoan msg tokens p t ca ct entered = Abort NotScored entered
  ∧ after = (w, Reverted NotScored)
  ∧ loans (storage after.1) = loans (storage w)
  ∧ nextLoanId (storage after.1) = nextLoanId (storage w)
  ∧ balance after.1 = balance w
  ∧ pulls after.1 = pulls w.
Proof.
  intros Hscore entered after.
  assert (Hzero : scoreOf entered (sender msg) = 0).
  { unfold scoreOf, mapping_read, entered; simpl.
    destruct Hscore as [-> | ->]; reflexivity. }
  assert (Hbody : applyForLoan msg tokens p t ca ct entered = Abort NotScored entered).
  { rewrite applyForLoan_eq, Hzero. reflexivity. }
  assert (Hafter : after = (w, Reverted NotScored)).
  { unfold after, execute; simpl. fold entered. by rewrite Hbody. }
  rewrite Hafter; simpl. by repeat split.
Qed.

Lemma applyForLoan_unscored_witness :
  execute sample_deployed
    (ApplyForLoan (mkMsg sample_borrower 5) accepting_tokens 10 12 5 0)
  = (sample_deployed, Reverted NotScored)
  ∧ execute (sample_scored 0)
      (ApplyForLoan (mkMsg sample_borrower 0) accepting_tokens 10 12 3 sample_token)
    = (sample_scored 0, Reverted NotScored).
Proof.
  split.
  - apply (applyForLoan_unscored_fails sample_deployed (mkMsg sample_borrower 5)
             accepting_tokens 10 12 5 0).
    left. vm_compute; reflexivity.
  - apply (applyForLoan_unscored_fails (sample_scored 0) (mkMsg sample_borrower 0)
             accepting_tokens 10 12 3 sample_token).
    right. vm_compute; reflexivity.
Defined.

(** ** The oracle gate *)

(** C3: a caller other than trustedOracle gets Unauthorized from setRiskScore
    and from addCollateralToken, whatever the score (the range check is not
    reached); nothing is written before the abort and the transaction leaves
    the world, score map and whitelist included, unchanged. *)
Theorem oracle_only_functions_reject_strangers w caller b s t :
  caller ≠ trustedOracle (storage w) ->
  setRiskScore caller b s w = Abort Unauthorized w
  ∧ addCollateralToken caller t w = Abort Unauthorized w
  ∧ execute w (SetRiskScore caller b s) = (w, Reverted Unauthorized)
  ∧ execute w (AddCollateralToken caller t) = (w, Reverted Unauthorized)
  ∧ borrowerRiskScore (storage (execute w (SetRiskScore caller b s)).1)
    = borrowerRiskScore (storage w)
  ∧ supportedCollateral (storage (execute w (AddCollateralToken caller t)).1)
    = supportedCollateral (storage w).
Proof.
  intros Hcaller.
  unfold execute; simpl. rewrite credit_0.
  rewrite setRiskScore_eq, addCollateralToken_eq.
  destruct (N.eqb_spec caller (trustedOracle (storage w))); [done|].
  by repeat split.
Qed.

Lemma oracle_only_functions_witness :
  execute sample_deployed (SetRiskScore sample_stranger sample_borrower 101)
  = (sample_deployed, Reverted Unauthorized)
  ∧ execute sample_deployed (AddCollateralToken sample_stranger sample_token)
    = (sample_deployed, Reverted Unauthorized).
Proof.
  assert (H : sample_stranger ≠ trustedOracle (storage sample_deployed))
    by (vm_compute; lia).
  split.
  - apply (oracle_only_functions_reject_strangers sample_deployed sample_stranger
             sample_borrower 101 sample_token H).
  - apply (oracle_only_functions_reject_strangers sample_deployed sample_stranger
             sample_borrower 101 sample_token H).
Defined.

(** ** Guard order *)

(** C4: applyForLoan is its guards (score check, then collateral) followed by
    the rate computation; whenever the guards complete, the score they hand
    over is the caller's stored score and is at least 1, so the division
    100 / score is never run on a zero divisor: applyForLoan never aborts with
    the division-by-zero panic. *)
Theorem applyForLoan_never_divides_by_zero msg tokens p t ca ct w :
  applyForLoan msg tokens p t ca ct w
  = (riskScore ← applyForLoan_guards msg tokens ca ct;
     recordLoan msg riskScore p t ca ct) w
  ∧ (∀ riskScore w1,
       applyForLoan_guards msg tokens ca ct w = Done riskScore w1 ->
       riskScore = scoreOf w (sender msg) ∧ 1 <= riskScore
       ∧ ∃ finalRate, checked_div 100 riskScore w1 = Done finalRate w1)
  ∧ (∀ w1, applyForLoan msg tokens p t ca ct w
           ≠ Abort (Panic PANIC_DIVISION_BY_ZERO) w1).
Proof.
  split; [|split].
  - unfold mbind, Tx_bind.
    rewrite applyForLoan_eq, applyForLoan_guards_eq.
    destruct (0 <? _); [|reflexivity].
    destruct (collateralHandling _ _ _ _ _); reflexivity.
  - intros s w1. rewrite applyForLoan_guards_eq.
    destruct (N.ltb_spec 0 (scoreOf w (sender msg))); [|discriminate].
    destruct (collateralHandling _ _ _ _ _); [|discriminate].
    intros; simplify_eq. split; [reflexivity|]. split; [lia|].
    unfold checked_div.
    destruct (N.eqb_spec (scoreOf w (sender msg)) 0); [lia|]. eauto.
  - intros w1. rewrite applyForLoan_eq.
    destruct (N.ltb_spec 0 (scoreOf w (sender msg))); [|discriminate].
    destruct (collateralHandling _ _ _ _ _) as [[] w2|e w2] eqn:Hc.
    + rewrite recordLoan_eq.
      destruct (N.eqb_spec (scoreOf w (sender msg)) 0); [lia|].
      destruct (_ <=? MAX_UINT256); discriminate.
    + rewrite collateralHandling_eq in Hc. intros ?; simplify_eq.
      repeat case_match; simplify_eq.
Qed.

Lemma applyForLoan_guards_witness :
  let w := credit 5 (sample_scored 50) in
  50 = scoreOf w sample_borrower ∧ 1 <= 50
  ∧ ∃ finalRate, checked_div 100 50 w = Done finalRate w.
Proof.
  intros w.
  apply (proj1 (proj2 (applyForLoan_never_divides_by_zero
                         (mkMsg sample_borrower 5) accepting_tokens 10 12 5 0 w))
           50 w).
  vm_compute; reflexivity.
Defined.

(** ** Score registry *)

(** C7: called by the oracle, setRiskScore fails with InvalidScore for every
    score above 100 (a uint256 is never below 0) and leaves the registry
    unchanged; for a score in 0..100 it overwrites the borrower's stored value,
    touches no other borrower, and emits ScoreUpdated; setting the same value
    again succeeds, leaves storage as it is, and emits the event again. *)
Theorem setRiskScore_range_and_overwrite w caller b s :
  caller = trustedOracle (storage w) ->
  (100 < s ->
     setRiskScore caller b s w = Abort InvalidScore w
     ∧ execute w (SetRiskScore caller b s) = (w, Reverted InvalidScore))
  ∧ (s <= 100 ->
     ∃ w', execute w (SetRiskScore caller b s) = (w', Success)
       ∧ scoreOf w' b = s
       ∧ (∀ b', b' ≠ b -> scoreOf w' b' = scoreOf w b')
       ∧ logs w' = logs w ++ [ScoreUpdated b s]
       ∧ ∃ w'', execute w' (SetRiskScore caller b s) = (w'', Success)
           ∧ storage w'' = storage w'
           ∧ scoreOf w'' b = s
           ∧ logs w'' = logs w' ++ [ScoreUpdated b s]).
Proof.
  intros ->.
  pose proof credit_0 as Hcredit.
  split; intros Hs.
  - unfold execute; simpl. rewrite Hcredit, setRiskScore_eq, N.eqb_refl.
    destruct (N.leb_spec s 100); [lia|]. done.
  - unfold execute; simpl. rewrite Hcredit, setRiskScore_eq, N.eqb_refl.
    destruct (N.leb_spec s 100); [|lia].
    eexists; split; [reflexivity|].
    unfold scoreOf, mapping_read; simpl.
    split; [by rewrite lookup_insert_eq|].
    split; [by intros b' Hb'; rewrite lookup_insert_ne|].
    split; [reflexivity|].
    rewrite Hcredit, setRiskScore_eq; simpl. rewrite N.eqb_refl.
    destruct (N.leb_spec s 100); [|lia].
    eexists; split; [reflexivity|]; simpl.
    rewrite insert_insert_eq, lookup_insert_eq. done.
Qed.

Lemma setRiskScore_range_witness :
  execute sample_deployed (SetRiskScore sample_oracle sample_borrower 101)
  = (sample_deployed, Reverted InvalidScore)
  ∧ ∃ w', execute sample_deployed (SetRiskScore sample_oracle sample_borrower 100)
          = (w', Success)
          ∧ scoreOf w' sample_borrower = 100.
Proof.
  assert (H : sample_oracle = trustedOracle (storage sample_deployed))
    by (vm_compute; reflexivity).
  split.
  - apply (proj1 (setRiskScore_range_and_overwrite sample_deployed sample_oracle
                    sample_borrower 101 H)).
    lia.
  - destruct (proj2 (setRiskScore_range_and_overwrite sample_deployed sample_oracle
                       sample_borrower 100 H)) as (w' & Hex & Hsc & _).
    + lia.
    + exists w'. split; assumption.
Defined.

(** ** The ledger *)

(** Each kind of call, when it succeeds, moves the ledger in one way only. *)
Lemma execute_Success_ledger w c w' :
  execute w c = (w', Success) ->
  match c with
  | ApplyForLoan msg _ p t ca ct =>
      loans (storage w') =
        loans (storage w) ++
          [mkLoan (nextLoanId (storage w)) (sender msg) p
                  (100 / scoreOf w (sender msg)) t ca ct false]
      ∧ nextLoanId (storage w') = nextLoanId (storage w) + 1
  | _ =>
      loans (storage w') = loans (storage w)
      ∧ nextLoanId (storage w') = nextLoanId (storage w)
  end.
Proof.
  destruct c as [caller b s|caller t|msg tokens p t ca ct]; intros Hex.
  - apply execute_setRiskScore_Success in Hex as (_ & _ & ->). done.
  - apply execute_addCollateralToken_Success in Hex as (_ & ->). done.
  - apply execute_applyForLoan_Success in Hex as (_ & _ & -> & _). done.
Qed.

Lemma execute_ledger_prefix w c :
  loans (storage w) `prefix_of` loans (storage (execute w c).1).
Proof.
  destruct (execute_outcome w c) as [[e ->]|[w' Hex]]; [done|].
  rewrite Hex; simpl. apply execute_Success_ledger in Hex.
  destruct c; destruct Hex as [-> _]; [done|done|by apply prefix_app_r].
Qed.

Lemma run_ledger_prefix cs w :
  loans (storage w) `prefix_of` loans (storage (run w cs)).
Proof.
  revert w. induction cs as [|c cs IH]; intros w; [done|].
  rewrite run_cons. etrans; [apply execute_ledger_prefix|apply IH].
Qed.

Lemma ledger_numbered_push w l next :
  ledger_numbered w ->
  loanId l = nextLoanId (storage w) ->
  loanId <$> (loans (storage w) ++ [l])
    = N.of_nat <$> seq 1 (length (loans (storage w) ++ [l]))
  ∧ (next = nextLoanId (storage w) + 1 ->
     next = N.of_nat (length (loans (storage w) ++ [l])) + 1).
Proof.
  intros [Hids Hnext] Hl.
  rewrite length_app; simpl.
  rewrite fmap_app, Hids, seq_app, fmap_app; simpl.
  rewrite Hl, Hnext.
  split; [do 2 f_equal; lia|lia].
Qed.

Lemma execute_ledger_numbered w c :
  ledger_numbered w -> ledger_numbered (execute w c).1.
Proof.
  intros Hw.
  destruct (execute_outcome w c) as [[e ->]|[w' Hex]]; [done|].
  rewrite Hex; simpl. apply execute_Success_ledger in Hex.
  destruct c as [| |msg tokens p t ca ct]; destruct Hex as [Hl Hn];
    unfold ledger_numbered; rewrite Hl, Hn; try apply Hw.
  edestruct ledger_numbered_push as [H1 H2]; [exact Hw| |split; [exact H1|by apply H2]].
  reflexivity.
Qed.

Lemma constructor_ledger_numbered self oracle :
  ledger_numbered (constructor self oracle).
Proof. by split. Qed.

Lemma run_ledger_numbered cs w :
  ledger_numbered w -> ledger_numbered (run w cs).
Proof.
  revert w. induction cs as [|c cs IH]; intros w Hw; [done|].
  rewrite run_cons. by apply IH, execute_ledger_numbered.
Qed.

(** C5: in every state reached from deployment the loans carry the ids
    1, 2, 3, ... in order and nextLoanId is one more than their number; a
    successful applyForLoan appends exactly one loan, numbered with the current
    nextLoanId, and adds 1 to nextLoanId; the other calls and every failed call
    leave the ledger alone; whatever calls follow, the loans recorded so far
    stay in place as a prefix of the ledger. *)
Theorem ledger_is_append_only self oracle cs :
  let w := run (constructor self oracle) cs in
  (loanId <$> loans (storage w) = N.of_nat <$> seq 1 (length (loans (storage w))))
  ∧ (∀ i l, loans (storage w) !! i = Some l -> loanId l = N.of_nat (i + 1))
  ∧ nextLoanId (storage w) = N.of_nat (length (loans (storage w))) + 1
  ∧ (∀ c w',
       execute w c = (w', Success) ->
       match c with
       | ApplyForLoan _ _ _ _ _ _ =>
           ∃ l, loans (storage w') = loans (storage w) ++ [l]
                ∧ loanId l = nextLoanId (storage w)
                ∧ nextLoanId (storage w') = nextLoanId (storage w) + 1
       | _ =>
           loans (storage w') = loans (storage w)
           ∧ nextLoanId (storage w') = nextLoanId (storage w)
       end)
  ∧ (∀ c w' e, execute w c = (w', Reverted e) -> w' = w)
  ∧ (∀ cs', loans (storage w) `prefix_of` loans (storage (run w cs'))).
Proof.
  intros w.
  assert (Hnum : ledger_numbered w)
    by apply run_ledger_numbered, constructor_ledger_numbered.
  destruct Hnum as [Hids Hnext].
  split; [exact Hids|]. split; [|split; [exact Hnext|]].
  - intros i l Hl.
    assert (Hi : (loanId <$> loans (storage w)) !! i = Some (loanId l))
      by (by rewrite list_lookup_fmap, Hl).
    rewrite Hids, list_lookup_fmap in Hi.
    apply lookup_lt_Some in Hl.
    rewrite lookup_seq_lt in Hi by done. simpl in Hi.
    injection Hi as <-. f_equal. lia.
  - split; [|split].
    + intros c w' Hex. apply execute_Success_ledger in Hex.
      destruct c; try done. destruct Hex as [Hl Hn]. eauto.
    + intros c w' e. apply execute_Reverted.
    + intros cs'. apply run_ledger_prefix.
Qed.

Lemma ledger_is_append_only_witness :
  loanId <$> loans (storage (run (constructor 900 sample_oracle) sample_history))
  = [1; 2]
  ∧ nextLoanId (storage (run (constructor 900 sample_oracle) sample_history)) = 3.
Proof.
  destruct (ledger_is_append_only 900 sample_oracle sample_history)
    as (Hids & _ & Hnext & _).
  split.
  - rewrite Hids. vm_compute; reflexivity.
  - rewrite Hnext. vm_compute; reflexivity.
Defined.

(** ** Collateral routing *)

(** A token whose transferFrom reverts makes applyForLoan revert with the
    token's own failure; the transaction leaves the world unchanged. *)
Lemma applyForLoan_token_reverts w msg tokens p t ca ct :
  1 <= scoreOf w (sender msg) ->
  ct ≠ address0 ->
  isSupported w ct = true ->
  value msg = 0 ->
  tokens ct (sender msg) (this w) ca = Reverts ->
  execute w (ApplyForLoan msg tokens p t ca ct) = (w, Reverted Callee_reverted).
Proof.
  intros Hs Hct Hsup Hv Hreply.
  unfold execute; simpl. rewrite Hv, credit_0.
  rewrite applyForLoan_eq, collateralHandling_eq, Hsup, Hv, Hreply.
  destruct (N.ltb_spec 0 (scoreOf w (sender msg))); [|lia].
  destruct (N.eqb_spec ct 0); [done|]. reflexivity.
Qed.

(** C6, as stated, fails: a pull-transfer can also fail by reverting, and
    then applyForLoan does not fail with TransferFailed. Here the borrower is
    scored, the token is whitelisted, no ETH is sent and the token's
    transferFrom reverts: the application reverts with the token's own
    failure. *)
Lemma reverting_pull_is_not_TransferFailed :
  let w := (execute (sample_scored 50)
              (AddCollateralToken sample_oracle sample_token)).1 in
  let c := ApplyForLoan (mkMsg sample_borrower 0) reverting_tokens 10 12 3
             sample_token in
  scoreOf w sample_borrower = 50
  ∧ isSupported w sample_token = true
  ∧ reverting_tokens sample_token sample_borrower (this w) 3 = Reverts
  ∧ execute w c = (w, Reverted Callee_reverted)
  ∧ execute w c ≠ (w, Reverted TransferFailed).
Proof.
  intros w c.
  split; [vm_compute; reflexivity|].
  split; [vm_compute; reflexivity|].
  split; [reflexivity|].
  split; [vm_compute; reflexivity|].
  intros H. vm_compute in H. discriminate.
Qed.

(** C6, amended: for a scored caller, the collateral checks of applyForLoan
    run in this order and fail as follows. ETH collateral: a value sent that
    differs from collateralAmount gives CollateralMismatch. Token collateral:
    a token that is not whitelisted gives UnsupportedCollateral; a whitelisted
    token with ETH sent alongside gives UnexpectedNativeValue; a whitelisted
    token, no ETH, and a transferFrom that returns false gives TransferFailed;
    a whitelisted token, no ETH, and a transferFrom that reverts gives the
    token's own failure, not TransferFailed. Every failed application leaves
    the loans and nextLoanId unchanged. *)
Theorem applyForLoan_collateral_routing w msg tokens p t ca ct :
  1 <= scoreOf w (sender msg) ->
  let after := execute w (ApplyForLoan msg tokens p t ca ct) in
  (ct = address0 -> value msg ≠ ca ->
     after = (w, Reverted CollateralMismatch))
  ∧ (ct ≠ address0 -> isSupported w ct = false ->
     after = (w, Reverted UnsupportedCollateral))
  ∧ (ct ≠ address0 -> isSupported w ct = true -> value msg ≠ 0 ->
     after = (w, Reverted UnexpectedNativeValue))
  ∧ (ct ≠ address0 -> isSupported w ct = true -> value msg = 0 ->
     tokens ct (sender msg) (this w) ca = Returns false ->
     after = (w, Reverted TransferFailed))
  ∧ (ct ≠ address0 -> isSupported w ct = true -> value msg = 0 ->
     tokens ct (sender msg) (this w) ca = Reverts ->
     after = (w, Reverted Callee_reverted)
     ∧ Callee_reverted ≠ TransferFailed)
  ∧ (∀ e, after.2 = Reverted e ->
     loans (storage after.1) = loans (storage w)
     ∧ nextLoanId (storage after.1) = nextLoanId (storage w)).
Proof.
  intros Hs after. unfold address0.
  assert (Hscore : (0 <? scoreOf (credit (value msg) w) (sender msg)) = true).
  { apply N.ltb_lt. unfold scoreOf, credit in *; simpl. lia. }
  assert (Hsup : isSupported (credit (value msg) w) ct = isSupported w ct)
    by reflexivity.
  assert (Hafter : after =
            match applyForLoan msg tokens p t ca ct (credit (value msg) w) with
            | Done _ w' => (w', Success)
            | Abort e _ => (w, Reverted e)
            end).
  { reflexivity. }
  rewrite applyForLoan_eq, Hscore, collateralHandling_eq, Hsup in Hafter.
  split; [|split; [|split; [|split; [|split]]]].
  - intros -> Hv. rewrite Hafter; simpl.
    destruct (N.eqb_spec (value msg) ca); done.
  - intros Hct Hno. rewrite Hafter, Hno.
    destruct (N.eqb_spec ct 0); done.
  - intros Hct Hyes Hv. rewrite Hafter, Hyes.
    destruct (N.eqb_spec ct 0); [done|].
    destruct (N.eqb_spec (value msg) 0); done.
  - intros Hct Hyes Hv Hreply. rewrite Hafter, Hyes, Hv; simpl.
    rewrite Hreply.
    destruct (N.eqb_spec ct 0); done.
  - intros Hct Hyes Hv Hreply. split; [|discriminate].
    unfold after. by apply applyForLoan_token_reverts.
  - intros e He.
    destruct (execute_outcome w (ApplyForLoan msg tokens p t ca ct))
      as [[e' Hex]|[w' Hex]]; fold after in Hex; rewrite Hex in He |- *;
      by simplify_eq.
Qed.

Lemma applyForLoan_collateral_routing_witness :
  let w := (execute (sample_scored 50)
              (AddCollateralToken sample_oracle sample_token)).1 in
  execute w (ApplyForLoan (mkMsg sample_borrower 4) accepting_tokens 10 12 5 0)
  = (w, Reverted CollateralMismatch)
  ∧ execute w (ApplyForLoan (mkMsg sample_borrower 0) accepting_tokens 10 12 3 78)
    = (w, Reverted UnsupportedCollateral)
  ∧ execute w (ApplyForLoan (mkMsg sample_borrower 1) accepting_tokens 10 12 3
                 sample_token)
    = (w, Reverted UnexpectedNativeValue)
  ∧ execute w (ApplyForLoan (mkMsg sample_borrower 0) refusing_tokens 10 12 3
                 sample_token)
    = (w, Reverted TransferFailed)
  ∧ (execute w (ApplyForLoan (mkMsg sample_borrower 0) reverting_tokens 10 12 3
                  sample_token)
     = (w, Reverted Callee_reverted)
     ∧ Callee_reverted ≠ TransferFailed).
Proof.
  intros w.
  assert (Hs : 1 <= scoreOf w sample_borrower).
  { replace (scoreOf w sample_borrower) with 50 by (vm_compute; reflexivity). lia. }
  split; [|split; [|split; [|split]]].
  - apply (applyForLoan_collateral_routing w (mkMsg sample_borrower 4)
             accepting_tokens 10 12 5 0 Hs).
    + reflexivity.
    + simpl; lia.
  - apply (applyForLoan_collateral_routing w (mkMsg sample_borrower 0)
             accepting_tokens 10 12 3 78 Hs).
    + unfold address0; lia.
    + vm_compute; reflexivity.
  - apply (applyForLoan_collateral_routing w (mkMsg sample_borrower 1)
             accepting_tokens 10 12 3 sample_token Hs).
    + unfold address0, sample_token; lia.
    + vm_compute; reflexivity.
    + simpl; lia.
  - apply (applyForLoan_collateral_routing w (mkMsg sample_borrower 0)
             refusing_tokens 10 12 3 sample_token Hs).
    + unfold address0, sample_token; lia.
    + vm_compute; reflexivity.
    + reflexivity.
    + reflexivity.
  - apply (proj1 (proj2 (proj2 (proj2 (proj2
             (applyForLoan_collateral_routing w (mkMsg sample_borrower 0)
                reverting_tokens 10 12 3 sample_token Hs)))))).
    + unfold address0, sample_token; lia.
    + vm_compute; reflexivity.
    + reflexivity.
    + reflexivity.
Defined.

(** ** The whitelist *)

Lemma execute_keeps_supported w c t :
  isSupported w t = true -> isSupported (execute w c).1 t = true.
Proof.
  intros Ht.
  destruct (execute_outcome w c) as [[e ->]|[w' Hex]]; [done|].
  rewrite Hex; simpl.
  destruct c as [caller b s|caller t'|msg tokens p t' ca ct].
  - apply execute_setRiskScore_Success in Hex as (_ & _ & ->). done.
  - apply execute_addCollateralToken_Success in Hex as (_ & ->).
    unfold isSupported, mapping_read in *; simpl.
    destruct (decide (t' = t)) as [->|Hne].
    + by rewrite lookup_insert_eq.
    + by rewrite lookup_insert_ne.
  - apply execute_applyForLoan_Success in Hex as (_ & _ & Hst & _).
    unfold isSupported in *. by rewrite Hst.
Qed.

Lemma run_keeps_supported cs w t :
  isSupported w t = true -> isSupported (run w cs) t = true.
Proof.
  revert w. induction cs as [|c cs IH]; intros w Ht; [done|].
  rewrite run_cons. by apply IH, execute_keeps_supported.
Qed.

(** C9: once addCollateralToken(t) has succeeded the token is whitelisted, and
    it stays whitelisted after any further sequence of calls; no call of the
    contract turns a whitelisted token back into an unsupported one. *)
Theorem whitelist_only_grows w caller t w' cs :
  execute w (AddCollateralToken caller t) = (w', Success) ->
  isSupported w' t = true
  ∧ isSupported (run w' cs) t = true
  ∧ (∀ v c t', isSupported v t' = true -> isSupported (execute v c).1 t' = true).
Proof.
  intros Hex.
  assert (Ht : isSupported w' t = true).
  { apply execute_addCollateralToken_Success in Hex as (_ & ->).
    unfold isSupported, mapping_read; simpl. by rewrite lookup_insert_eq. }
  split; [exact Ht|]. split; [by apply run_keeps_supported|].
  intros v c t'. apply execute_keeps_supported.
Qed.

Lemma whitelist_only_grows_witness :
  let w' := (execute sample_deployed
               (AddCollateralToken sample_oracle sample_token)).1 in
  isSupported w' sample_token = true
  ∧ isSupported (run w' sample_history) sample_token = true.
Proof.
  intros w'.
  destruct (whitelist_only_grows sample_deployed sample_oracle sample_token w'
              sample_history) as (H1 & H2 & _).
  - vm_compute; reflexivity.
  - split; assumption.
Defined.

(** ** No positivity checks *)

Lemma run_counter_bound cs w :
  nextLoanId (storage (run w cs)) <= nextLoanId (storage w) + N.of_nat (length cs).
Proof.
  revert w. induction cs as [|c cs IH]; intros w; simpl length.
  - simpl. lia.
  - rewrite run_cons. etrans; [apply IH|].
    destruct (execute_outcome w c) as [[e ->]|[w' Hex]]; simpl; [lia|].
    rewrite Hex; simpl. apply execute_Success_ledger in Hex.
    destruct c; destruct Hex as [_ ->]; lia.
Qed.

(** C10: applyForLoan checks no amount for being positive: for a caller with
    a stored score of at least 1 (and a loan counter that has not run into
    the top of uint256, which takes 2^256 - 2 earlier loans), the call with
    principal 0, tenure 0, collateralAmount 0, ETH collateral and no value
    sent succeeds and appends a loan with principal 0, tenure 0 and
    collateralAmount 0. *)
Theorem applyForLoan_accepts_zero_amounts w caller tokens :
  1 <= scoreOf w caller ->
  nextLoanId (storage w) < MAX_UINT256 ->
  ∃ w',
    execute w (ApplyForLoan (mkMsg caller 0) tokens 0 0 0 address0) = (w', Success)
    ∧ loans (storage w') =
        loans (storage w) ++
          [mkLoan (nextLoanId (storage w)) caller 0 (100 / scoreOf w caller)
                  0 0 address0 false]
    ∧ (∀ l, last (loans (storage w')) = Some l ->
            principal l = 0 ∧ tenure l = 0 ∧ collateralAmount l = 0).
Proof.
  intros Hs Hn.
  unfold execute; simpl. rewrite credit_0.
  rewrite applyForLoan_eq, collateralHandling_eq; simpl.
  destruct (N.ltb_spec 0 (scoreOf w caller)); [|lia].
  rewrite recordLoan_eq.
  destruct (N.eqb_spec (scoreOf w caller) 0); [lia|].
  destruct (N.leb_spec (nextLoanId (storage w) + 1) MAX_UINT256); [|lia].
  eexists; split; [reflexivity|]. simpl.
  split; [reflexivity|].
  intros l. rewrite last_snoc. intros [= <-]. done.
Qed.

Lemma applyForLoan_accepts_zero_amounts_witness :
  ∃ w',
    execute (sample_scored 50)
      (ApplyForLoan (mkMsg sample_borrower 0) accepting_tokens 0 0 0 address0)
    = (w', Success)
    ∧ loans (storage w') = [mkLoan 1 sample_borrower 0 2 0 0 address0 false].
Proof.
  destruct (applyForLoan_accepts_zero_amounts (sample_scored 50) sample_borrower
              accepting_tokens) as (w' & Hex & Hl & _).
  - replace (scoreOf (sample_scored 50) sample_borrower) with 50
      by (vm_compute; reflexivity).
    lia.
  - vm_compute; reflexivity.
  - exists w'. split; [exact Hex|]. rewrite Hl. vm_compute; reflexivity.
Defined.

(** ** Reading a score *)

(** C8, as stated, fails: the contract's read returns the number alone. For a
    borrower that was never written and for one explicitly written as 0 the
    specification's presence flag differs, yet [get_borrowerRiskScore] returns
    the same answer, 0, in both worlds. *)
Lemma get_borrowerRiskScore_hides_presence :
  let unwritten := sample_deployed in
  let written := sample_scored 0 in
  execute sample_deployed (SetRiskScore sample_oracle sample_borrower 0)
  = (written, Success)
  ∧ spec_getScore sample_borrower unwritten = (0, false)
  ∧ spec_getScore sample_borrower written = (0, true)
  ∧ returned (get_borrowerRiskScore sample_borrower unwritten) = Some 0
  ∧ returned (get_borrowerRiskScore sample_borrower written) = Some 0
  ∧ ¬ (∀ (w1 w2 : World) (b : address),
         (spec_getScore b w1).2 ≠ (spec_getScore b w2).2 ->
         returned (get_borrowerRiskScore b w1)
         ≠ returned (get_borrowerRiskScore b w2)).
Proof.
  intros unwritten written.
  split; [vm_compute; reflexivity|].
  split; [vm_compute; reflexivity|].
  split; [vm_compute; reflexivity|].
  split; [vm_compute; reflexivity|].
  split; [vm_compute; reflexivity|].
  intros Hclaim.
  apply (Hclaim unwritten written sample_borrower).
  - vm_compute. discriminate.
  - vm_compute; reflexivity.
Qed.

(** C8, amended: reading a borrower's score is a pure operation that never
    fails: it completes, leaves the world as it is, and returns the stored
    number alone, which is the number last written and 0 for a borrower that
    was never written; a borrower written as 0 therefore reads exactly like
    one never written. *)
Theorem get_borrowerRiskScore_reads_number_only w b :
  ∃ v, get_borrowerRiskScore b w = Done v w
       ∧ v = (spec_getScore b w).1
       ∧ (∀ s, borrowerRiskScore (storage w) !! b = Some s -> v = s)
       ∧ (borrowerRiskScore (storage w) !! b = None -> v = 0)
       ∧ (∀ w0, borrowerRiskScore (storage w0) !! b = None ->
                borrowerRiskScore (storage w) !! b = Some 0 ->
                returned (get_borrowerRiskScore b w0)
                = returned (get_borrowerRiskScore b w)).
Proof.
  exists (scoreOf w b).
  split; [reflexivity|].
  unfold scoreOf, spec_getScore, mapping_read.
  split; [by destruct (_ !! b)|].
  split; [by intros s ->|].
  split; [by intros ->|].
  intros w0 H0 Hw. unfold get_borrowerRiskScore, sload, mapping_read; simpl.
  by rewrite H0, Hw.
Qed.

Lemma get_borrowerRiskScore_reads_witness :
  returned (get_borrowerRiskScore sample_borrower sample_deployed)
  = returned (get_borrowerRiskScore sample_borrower (sample_scored 0)).
Proof.
  destruct (get_borrowerRiskScore_reads_number_only (sample_scored 0) sample_borrower)
    as (v & _ & _ & _ & _ & Hsame).
  apply Hsame; vm_compute; reflexivity.
Defined.

(** * Further properties of the contract *)

(** ** When an application goes through *)

Lemma run_invariant (P : World -> Prop) cs w :
  P w -> (∀ v c, P v -> P (execute v c).1) -> P (run w cs).
Proof.
  intros Hw Hstep. revert w Hw.
  induction cs as [|c cs IH]; intros w Hw; [done|].
  rewrite run_cons. by apply IH, Hstep.
Qed.

Lemma collateralHandling_Done_iff msg tokens ca ct w :
  (∃ w1, collateralHandling msg tokens ca ct w = Done tt w1)
  ↔ (ct = address0 ∧ value msg = ca)
    ∨ (ct ≠ address0 ∧ isSupported w ct = true ∧ value msg = 0
       ∧ tokens ct (sender msg) (this w) ca = Returns true).
Proof.
  rewrite collateralHandling_eq. unfold address0.
  destruct (N.eqb_spec ct 0) as [->|Hct].
  - destruct (N.eqb_spec (value msg) ca) as [Hv|Hv]; split.
    + intros _. by left.
    + eauto.
    + intros [w1 ?]; discriminate.
    + intros [[_ ?]|[? _]]; done.
  - destruct (isSupported w ct) eqn:Hsup.
    + destruct (N.eqb_spec (value msg) 0) as [Hv|Hv].
      * destruct (tokens ct (sender msg) (this w) ca) as [[|]|] eqn:Hreply; split;
          try (intros [w1 ?]; discriminate); try (intros [[? _]|(_ & _ & _ & ?)]; done).
        -- intros _. by right.
        -- eauto.
      * split; [intros [w1 ?]; discriminate|].
        intros [[? _]|(_ & _ & ? & _)]; done.
    + split; [intros [w1 ?]; discriminate|].
      intros [[? _]|(_ & ? & _)]; done.
Qed.

Lemma execute_applyForLoan_Success_iff w msg tokens p t ca ct :
  (∃ w', execute w (ApplyForLoan msg tokens p t ca ct) = (w', Success))
  ↔ 1 <= scoreOf w (sender msg)
    ∧ ((ct = address0 ∧ value msg = ca)
       ∨ (ct ≠ address0 ∧ isSupported w ct = true ∧ value msg = 0
          ∧ tokens ct (sender msg) (this w) ca = Returns true))
    ∧ nextLoanId (storage w) < MAX_UINT256.
Proof.
  split.
  - intros [w' Hex]. unfold execute in Hex; simpl in Hex.
    destruct (applyForLoan _ _ _ _ _ _ _) as [u w2|] eqn:Ha; [|discriminate].
    apply applyForLoan_Done in Ha as (w1 & Hc & Hs & Hn & _).
    split; [exact Hs|]. split; [|simpl in Hn; lia].
    apply (collateralHandling_Done_iff msg tokens ca ct (credit (value msg) w)).
    eauto.
  - intros (Hs & Hc & Hn).
    apply (collateralHandling_Done_iff msg tokens ca ct (credit (value msg) w))
      in Hc as [w1 Hc].
    unfold execute; simpl. rewrite applyForLoan_eq, Hc.
    destruct (N.ltb_spec 0 (scoreOf (credit (value msg) w) (sender msg))) as [_|Hlt].
    2:{ unfold scoreOf, credit in *; simpl in *. lia. }
    rewrite recordLoan_eq.
    destruct (N.eqb_spec (scoreOf (credit (value msg) w) (sender msg)) 0) as [Hz|_].
    { unfold scoreOf, credit in *; simpl in *. lia. }
    apply collateralHandling_Done in Hc as (_ & _ & Hst & _).
    rewrite Hst; simpl.
    destruct (N.leb_spec (nextLoanId (storage w) + 1) MAX_UINT256); [eauto|lia].
Qed.

(** ** Every transaction, case by case *)

Lemma execute_cases w c :
  (∃ e, execute w c = (w, Reverted e))
  ∨ match c with
    | SetRiskScore caller b s =>
        caller = trustedOracle (storage w) ∧ s <= 100
        ∧ execute w c = (scored w b s, Success)
    | AddCollateralToken caller t =>
        caller = trustedOracle (storage w)
        ∧ execute w c = (whitelisted w t, Success)
    | ApplyForLoan msg tokens p t ca ct =>
        1 <= scoreOf w (sender msg)
        ∧ nextLoanId (storage w) < MAX_UINT256
        ∧ ((ct = address0 ∧ value msg = ca)
           ∨ (ct ≠ address0 ∧ isSupported w ct = true ∧ value msg = 0
              ∧ tokens ct (sender msg) (this w) ca = Returns true))
        ∧ execute w c = (issued w msg p t ca ct, Success)
    end.
Proof.
  destruct (execute_outcome w c) as [?|[w' Hex]]; [by left|right].
  destruct c as [caller b s|caller t|msg tokens p t ca ct].
  - pose proof Hex as Hex'.
    apply execute_setRiskScore_Success in Hex' as (? & ? & ->). done.
  - pose proof Hex as Hex'.
    apply execute_addCollateralToken_Success in Hex' as (? & ->). done.
  - pose proof (proj1 (execute_applyForLoan_Success_iff w msg tokens p t ca ct)
                  (ex_intro _ w' Hex)) as (Hs & Hc & Hn).
    repeat (split; [done|]).
    rewrite Hex. f_equal.
    apply execute_applyForLoan_Success in Hex
      as (_ & _ & Hst & Hb & Hl & Hp & Ht).
    destruct w' as [this' balance' storage' logs' pulls']; simpl in *.
    unfold issued. by rewrite Hst, Hb, Hl, Hp, Ht.
Qed.

(** X1: applyForLoan succeeds exactly when the caller's stored score is at
    least 1, the collateral is in order (ETH: the value sent equals
    collateralAmount; token: the token is whitelisted, no ETH is sent and
    transferFrom returns true), and nextLoanId can still be incremented. *)
Theorem applyForLoan_succeeds_exactly_when w msg tokens p t ca ct :
  (∃ w', execute w (ApplyForLoan msg tokens p t ca ct) = (w', Success))
  ↔ 1 <= scoreOf w (sender msg)
    ∧ ((ct = address0 ∧ value msg = ca)
       ∨ (ct ≠ address0 ∧ isSupported w ct = true ∧ value msg = 0
          ∧ tokens ct (sender msg) (this w) ca = Returns true))
    ∧ nextLoanId (storage w) < MAX_UINT256.
Proof. apply execute_applyForLoan_Success_iff. Qed.

(** ** Scores and rates stay in range *)

Lemma rate_in_range s : 1 <= s <= 100 -> 1 <= 100 / s <= 100.
Proof.
  intros [H1 H2]. split.
  - apply N.div_le_lower_bound; lia.
  - apply N.Div0.div_le_upper_bound; lia.
Qed.

Lemma execute_keeps_ranges w c :
  (∀ b, scoreOf w b <= 100)
  ∧ Forall (λ l, 1 <= interestRate l <= 100) (loans (storage w)) ->
  (∀ b, scoreOf (execute w c).1 b <= 100)
  ∧ Forall (λ l, 1 <= interestRate l <= 100) (loans (storage (execute w c).1)).
Proof.
  intros [Hscores Hrates].
  destruct (execute_cases w c) as [[e ->]|Hc]; [done|].
  destruct c as [caller b s|caller t|msg tokens p t ca ct].
  - destruct Hc as (_ & Hs & ->); simpl. split; [|done].
    intros b'. unfold scoreOf, mapping_read in *; simpl.
    destruct (decide (b = b')) as [->|Hne].
    + by rewrite lookup_insert_eq.
    + rewrite lookup_insert_ne by done. apply Hscores.
  - destruct Hc as (_ & ->); simpl. done.
  - destruct Hc as (Hs & _ & _ & ->); simpl. split; [exact Hscores|].
    apply Forall_app; split; [done|].
    apply Forall_singleton; simpl. apply rate_in_range.
    split; [done|apply Hscores].
Qed.

Lemma reachable_ranges self oracle cs :
  let w := run (constructor self oracle) cs in
  (∀ b, scoreOf w b <= 100)
  ∧ Forall (λ l, 1 <= interestRate l <= 100) (loans (storage w)).
Proof.
  apply (run_invariant
           (λ w, (∀ b, scoreOf w b <= 100)
                 ∧ Forall (λ l, 1 <= interestRate l <= 100) (loans (storage w)))).
  - split; [|by apply Forall_nil]. intros b. unfold scoreOf, mapping_read; simpl.
    rewrite lookup_empty; simpl. lia.
  - intros v c. apply execute_keeps_ranges.
Qed.

(** X2: in every state reached from deployment, whatever calls were made
    and by whom, every borrower's stored score is at most 100. *)
Theorem stored_scores_at_most_100 self oracle cs b :
  scoreOf (run (constructor self oracle) cs) b <= 100
  ∧ ∃ v, get_borrowerRiskScore b (run (constructor self oracle) cs)
         = Done v (run (constructor self oracle) cs) ∧ v <= 100.
Proof.
  pose proof (proj1 (reachable_ranges self oracle cs) b) as H.
  split; [exact H|]. exists (scoreOf (run (constructor self oracle) cs) b).
  split; [reflexivity|exact H].
Qed.

(** X3: in every state reached from deployment, every loan in the ledger has
    an interest rate between 1 and 100. *)
Theorem recorded_rates_between_1_and_100 self oracle cs :
  Forall (λ l, 1 <= interestRate l <= 100)
         (loans (storage (run (constructor self oracle) cs))).
Proof. apply reachable_ranges. Qed.

(** X4: a higher score never gives a higher rate: of two successful
    applications, the one made with the higher stored score records an
    interest rate that is at most the other's. *)
Theorem higher_score_no_higher_rate
    w1 msg1 tokens1 p1 t1 ca1 ct1 w1' w2 msg2 tokens2 p2 t2 ca2 ct2 w2' :
  execute w1 (ApplyForLoan msg1 tokens1 p1 t1 ca1 ct1) = (w1', Success) ->
  execute w2 (ApplyForLoan msg2 tokens2 p2 t2 ca2 ct2) = (w2', Success) ->
  scoreOf w1 (sender msg1) <= scoreOf w2 (sender msg2) ->
  ∃ l1 l2, last (loans (storage w1')) = Some l1
           ∧ last (loans (storage w2')) = Some l2
           ∧ interestRate l2 <= interestRate l1.
Proof.
  intros H1 H2 Hle.
  apply execute_applyForLoan_Success in H1 as (Hs1 & _ & -> & _).
  apply execute_applyForLoan_Success in H2 as (Hs2 & _ & -> & _).
  simpl. do 2 eexists. rewrite !last_snoc.
  split; [reflexivity|]. split; [reflexivity|]. simpl.
  apply N.div_le_compat_l. lia.
Qed.

Lemma higher_score_no_higher_rate_witness :
  ∃ l1 l2,
    last (loans (storage (execute (sample_scored 25)
            (ApplyForLoan (mkMsg sample_borrower 5) accepting_tokens 10 12 5 0)).1))
    = Some l1
    ∧ last (loans (storage (execute (sample_scored 60)
            (ApplyForLoan (mkMsg sample_borrower 5) accepting_tokens 10 12 5 0)).1))
      = Some l2
    ∧ interestRate l2 <= interestRate l1.
Proof.
  apply (higher_score_no_higher_rate
           (sample_scored 25) (mkMsg sample_borrower 5) accepting_tokens 10 12 5 0 _
           (sample_scored 60) (mkMsg sample_borrower 5) accepting_tokens 10 12 5 0 _).
  - vm_compute; reflexivity.
  - vm_compute; reflexivity.
  - replace (scoreOf (sample_scored 25) (sender (mkMsg sample_borrower 5))) with 25
      by (vm_compute; reflexivity).
    replace (scoreOf (sample_scored 60) (sender (mkMsg sample_borrower 5))) with 60
      by (vm_compute; reflexivity).
    lia.
Defined.

(** ** Custody *)

Lemma eth_collateral_snoc ls l :
  eth_collateral (ls ++ [l]) = eth_collateral ls + eth_posted l.
Proof.
  unfold eth_collateral. induction ls as [|x ls IH]; simpl; [lia|].
  rewrite IH. lia.
Qed.

Lemma token_pulls_snoc self ls l :
  token_pulls self (ls ++ [l]) = token_pulls self ls ++ pull_of self l.
Proof.
  unfold token_pulls. rewrite bind_app. simpl. by rewrite app_nil_r.
Qed.

Lemma execute_keeps_custody w c :
  balance w = eth_collateral (loans (storage w))
  ∧ pulls w = token_pulls (this w) (loans (storage w)) ->
  balance (execute w c).1 = eth_collateral (loans (storage (execute w c).1))
  ∧ pulls (execute w c).1
    = token_pulls (this (execute w c).1) (loans (storage (execute w c).1)).
Proof.
  intros [Hbal Hpulls].
  destruct (execute_cases w c) as [[e ->]|Hc]; [done|].
  destruct c as [caller b s|caller t|msg tokens p t ca ct].
  - destruct Hc as (_ & _ & ->). done.
  - destruct Hc as (_ & ->). done.
  - destruct Hc as (_ & _ & Hcoll & ->); simpl.
    rewrite eth_collateral_snoc, token_pulls_snoc, <- Hbal, <- Hpulls.
    unfold eth_posted, pull_of; simpl. unfold address0 in *.
    destruct Hcoll as [[-> ->]|(Hct & _ & -> & _)]; simpl.
    + done.
    + destruct (N.eqb_spec ct 0); [done|]. split; [lia|done].
Qed.

(** X5: the ETH held by the contract is exactly the ETH collateral its
    ledger records, in every state reached from deployment (counting the ETH
    that comes in through the contract's own functions). *)
Theorem balance_is_recorded_eth_collateral self oracle cs :
  balance (run (constructor self oracle) cs)
  = eth_collateral (loans (storage (run (constructor self oracle) cs))).
Proof.
  apply (run_invariant
           (λ w, balance w = eth_collateral (loans (storage w))
                 ∧ pulls w = token_pulls (this w) (loans (storage w)))).
  - done.
  - intros v c. apply execute_keeps_custody.
Qed.

(** X6: the token transfers the contract has requested are exactly those its
    ledger records: one successful transferFrom per token-backed loan, in
    ledger order, of the recorded amount, from the borrower to the contract;
    ETH-backed loans request none. *)
Theorem pulls_are_recorded_token_collateral self oracle cs :
  pulls (run (constructor self oracle) cs)
  = token_pulls self (loans (storage (run (constructor self oracle) cs)))
  ∧ Forall (λ q, pull_result q = true ∧ pull_to q = self ∧ pull_token q ≠ address0)
           (pulls (run (constructor self oracle) cs)).
Proof.
  assert (Hthis : this (run (constructor self oracle) cs) = self).
  { apply (run_invariant (λ w, this w = self)); [done|].
    intros v c Hv. destruct (execute_cases v c) as [[e ->]|Hc]; [done|].
    destruct c; [destruct Hc as (_ & _ & ->)|destruct Hc as (_ & ->)
                |destruct Hc as (_ & _ & _ & ->)]; done. }
  assert (Hp : pulls (run (constructor self oracle) cs)
               = token_pulls self (loans (storage (run (constructor self oracle) cs)))).
  { rewrite <- Hthis at 2.
    apply (run_invariant
             (λ w, balance w = eth_collateral (loans (storage w))
                   ∧ pulls w = token_pulls (this w) (loans (storage w)))).
    - done.
    - intros v c. apply execute_keeps_custody. }
  split; [exact Hp|]. rewrite Hp.
  generalize (loans (storage (run (constructor self oracle) cs))).
  intros ls. induction ls as [|l ls IH]; [by apply Forall_nil|].
  unfold token_pulls in *; simpl. apply Forall_app; split; [|exact IH].
  unfold pull_of, address0. destruct (N.eqb_spec (collateralToken l) 0).
  - by apply Forall_nil.
  - apply Forall_singleton; simpl. done.
Qed.

(** X7: no call makes the contract's ETH balance smaller: the contract has no
    way of paying out, so collateral that came in stays in. *)
Theorem balance_never_decreases w cs :
  balance w <= balance (run w cs).
Proof.
  revert w. induction cs as [|c cs IH]; intros w; [simpl; lia|].
  rewrite run_cons. etrans; [|apply IH].
  destruct (execute_cases w c) as [[e ->]|Hc]; [simpl; lia|].
  destruct c; [destruct Hc as (_ & _ & ->)|destruct Hc as (_ & ->)
              |destruct Hc as (_ & _ & _ & ->)]; simpl; lia.
Qed.

Lemma execute_keeps_token_loans_supported w c :
  Forall (λ l, collateralToken l ≠ address0 ->
               isSupported w (collateralToken l) = true) (loans (storage w)) ->
  Forall (λ l, collateralToken l ≠ address0 ->
               isSupported (execute w c).1 (collateralToken l) = true)
         (loans (storage (execute w c).1)).
Proof.
  intros Hw.
  assert (Hold : Forall (λ l, collateralToken l ≠ address0 ->
                   isSupported (execute w c).1 (collateralToken l) = true)
                   (loans (storage w))).
  { eapply Forall_impl; [exact Hw|]. intros l Hl Hne.
    by apply execute_keeps_supported, Hl. }
  destruct (execute_cases w c) as [[e He]|Hc]; [by rewrite He in *|].
  destruct c as [caller b s|caller t|msg tokens p t ca ct].
  - destruct Hc as (_ & _ & Hex). by rewrite Hex in *.
  - destruct Hc as (_ & Hex). by rewrite Hex in *.
  - destruct Hc as (_ & _ & Hcoll & Hex). rewrite Hex in *; simpl.
    apply Forall_app; split; [exact Hold|].
    apply Forall_singleton; simpl. intros Hne.
    destruct Hcoll as [[? _]|(_ & Hsup & _)]; done.
Qed.

(** X8: every token-backed loan in the ledger names a token that is on the
    whitelist, in every state reached from deployment. *)
Theorem token_loans_use_whitelisted_tokens self oracle cs :
  let w := run (constructor self oracle) cs in
  Forall (λ l, collateralToken l ≠ address0 ->
               isSupported w (collateralToken l) = true) (loans (storage w)).
Proof.
  apply (run_invariant
           (λ w, Forall (λ l, collateralToken l ≠ address0 ->
                              isSupported w (collateralToken l) = true)
                        (loans (storage w)))).
  - by apply Forall_nil.
  - intros v c. apply execute_keeps_token_loans_supported.
Qed.

(** ** The event log and the repaid flag *)

Lemma execute_keeps_log_in_step w c :
  omap as_disbursement (logs w) = disbursement <$> loans (storage w)
  ∧ Forall (λ e, is_LoanRepaid e = false) (logs w)
  ∧ Forall (λ l, isRepaid l = false) (loans (storage w)) ->
  omap as_disbursement (logs (execute w c).1)
  = disbursement <$> loans (storage (execute w c).1)
  ∧ Forall (λ e, is_LoanRepaid e = false) (logs (execute w c).1)
  ∧ Forall (λ l, isRepaid l = false) (loans (storage (execute w c).1)).
Proof.
  intros (Hlog & Hnone & Hflag).
  destruct (execute_cases w c) as [[e ->]|Hc]; [done|].
  destruct c as [caller b s|caller t|msg tokens p t ca ct].
  - destruct Hc as (_ & _ & ->); simpl.
    rewrite omap_app, Hlog; simpl. rewrite app_nil_r.
    split; [done|]. split; [|done].
    apply Forall_app; split; [done|]. by apply Forall_singleton.
  - destruct Hc as (_ & ->); simpl.
    rewrite omap_app, Hlog; simpl. rewrite app_nil_r.
    split; [done|]. split; [|done].
    apply Forall_app; split; [done|]. by apply Forall_singleton.
  - destruct Hc as (_ & _ & _ & ->); simpl.
    rewrite omap_app, fmap_app, Hlog; simpl.
    split; [done|]. split.
    + apply Forall_app; split; [done|]. by apply Forall_singleton.
    + apply Forall_app; split; [done|]. by apply Forall_singleton.
Qed.

(** X9: the LoanDisbursed events in the log are, in order, exactly the loans
    of the ledger: each event carries the id, borrower, principal, rate,
    collateral token and collateral amount of the loan it announces (the
    logged nextLoanId - 1 is the id the loan was stored with). *)
Theorem disbursement_events_mirror_ledger self oracle cs :
  let w := run (constructor self oracle) cs in
  omap as_disbursement (logs w) = disbursement <$> loans (storage w).
Proof.
  apply (run_invariant
           (λ w, omap as_disbursement (logs w) = disbursement <$> loans (storage w)
                 ∧ Forall (λ e, is_LoanRepaid e = false) (logs w)
                 ∧ Forall (λ l, isRepaid l = false) (loans (storage w)))).
  - repeat split; by apply Forall_nil.
  - intros v c. apply execute_keeps_log_in_step.
Qed.

(** X10: the contract has no repayment path: in every state reached from
    deployment every loan still has isRepaid = false and no LoanRepaid event
    was ever emitted. *)
Theorem no_loan_is_ever_repaid self oracle cs :
  let w := run (constructor self oracle) cs in
  Forall (λ l, isRepaid l = false) (loans (storage w))
  ∧ Forall (λ e, is_LoanRepaid e = false) (logs w).
Proof.
  intros w.
  assert (H : omap as_disbursement (logs w) = disbursement <$> loans (storage w)
              ∧ Forall (λ e, is_LoanRepaid e = false) (logs w)
              ∧ Forall (λ l, isRepaid l = false) (loans (storage w))).
  { apply (run_invariant
             (λ w, omap as_disbursement (logs w) = disbursement <$> loans (storage w)
                   ∧ Forall (λ e, is_LoanRepaid e = false) (logs w)
                   ∧ Forall (λ l, isRepaid l = false) (loans (storage w)))).
    - repeat split; by apply Forall_nil.
    - intros v c. apply execute_keeps_log_in_step. }
  destruct H as (_ & H1 & H2). by split.
Qed.

(** ** Who can change what *)

Lemma execute_keeps_oracle w c :
  trustedOracle (storage (execute w c).1) = trustedOracle (storage w)
  ∧ this (execute w c).1 = this w.
Proof.
  destruct (execute_cases w c) as [[e ->]|Hc]; [done|].
  destruct c; [destruct Hc as (_ & _ & ->)|destruct Hc as (_ & ->)
              |destruct Hc as (_ & _ & _ & ->)]; done.
Qed.

(** X11: the trusted oracle is fixed at construction: after any sequence of
    calls it is still the address given to the constructor, so a caller who
    is not that address is rejected by setRiskScore and addCollateralToken at
    every later time. *)
Theorem trustedOracle_never_changes self oracle cs caller b s t :
  caller ≠ oracle ->
  let w := run (constructor self oracle) cs in
  trustedOracle (storage w) = oracle
  ∧ execute w (SetRiskScore caller b s) = (w, Reverted Unauthorized)
  ∧ execute w (AddCollateralToken caller t) = (w, Reverted Unauthorized).
Proof.
  intros Hne w.
  assert (Ho : trustedOracle (storage w) = oracle).
  { apply (run_invariant (λ w, trustedOracle (storage w) = oracle)); [done|].
    intros v c <-. apply execute_keeps_oracle. }
  split; [exact Ho|].
  unfold execute; simpl. rewrite credit_0, setRiskScore_eq, addCollateralToken_eq, Ho.
  destruct (N.eqb_spec caller oracle); done.
Qed.

Lemma trustedOracle_never_changes_witness :
  let w := run (constructor 900 sample_oracle) sample_history in
  trustedOracle (storage w) = sample_oracle
  ∧ execute w (SetRiskScore sample_borrower sample_borrower 100)
    = (w, Reverted Unauthorized)
  ∧ execute w (AddCollateralToken sample_borrower 78)
    = (w, Reverted Unauthorized).
Proof.
  apply (trustedOracle_never_changes 900 sample_oracle sample_history
           sample_borrower sample_borrower 100 78).
  vm_compute; lia.
Defined.

Lemma execute_stranger_frame w c :
  caller_of c ≠ trustedOracle (storage w) ->
  borrowerRiskScore (storage (execute w c).1) = borrowerRiskScore (storage w)
  ∧ supportedCollateral (storage (execute w c).1) = supportedCollateral (storage w).
Proof.
  intros Hne.
  destruct (execute_cases w c) as [[e ->]|Hc]; [done|].
  destruct c as [caller b s|caller t|msg tokens p t ca ct]; simpl in Hne.
  - by destruct Hc as (? & _).
  - by destruct Hc as (? & _).
  - by destruct Hc as (_ & _ & _ & ->).
Qed.

(** X12: only the oracle writes scores and the whitelist: through any
    sequence of calls none of which comes from the trusted oracle, whatever
    the functions called, the score map and the whitelist stay as they were. *)
Theorem only_oracle_changes_scores_and_whitelist w cs :
  Forall (λ c, caller_of c ≠ trustedOracle (storage w)) cs ->
  borrowerRiskScore (storage (run w cs)) = borrowerRiskScore (storage w)
  ∧ supportedCollateral (storage (run w cs)) = supportedCollateral (storage w).
Proof.
  revert w. induction cs as [|c cs IH]; intros w Hcs; [done|].
  apply Forall_cons in Hcs as [Hc Hcs].
  rewrite run_cons.
  destruct (execute_stranger_frame w c Hc) as [Hs Ht].
  destruct (IH (execute w c).1) as [Hs' Ht'].
  { eapply Forall_impl; [exact Hcs|]. intros c' Hc'. simpl in Hc'.
    by rewrite (proj1 (execute_keeps_oracle w c)). }
  by rewrite Hs', Ht', Hs, Ht.
Qed.

Lemma only_oracle_changes_witness :
  let w := sample_scored 50 in
  let cs := [ ApplyForLoan (mkMsg sample_borrower 5) accepting_tokens 10 12 5 0;
              SetRiskScore sample_borrower sample_borrower 100;
              AddCollateralToken sample_stranger sample_token ] in
  borrowerRiskScore (storage (run w cs)) = borrowerRiskScore (storage w)
  ∧ supportedCollateral (storage (run w cs)) = supportedCollateral (storage w).
Proof.
  intros w cs.
  apply (only_oracle_changes_scores_and_whitelist w cs).
  repeat (apply Forall_cons_2; [vm_compute; lia|]).
  apply Forall_nil_2.
Defined.

(** X13: without the oracle no loan can be issued: if none of the calls
    made since deployment comes from the trusted oracle, the ledger is still
    empty and the contract holds no ETH. *)
Theorem no_loans_without_oracle self oracle cs :
  Forall (λ c, caller_of c ≠ oracle) cs ->
  loans (storage (run (constructor self oracle) cs)) = []
  ∧ balance (run (constructor self oracle) cs) = 0.
Proof.
  intros Hcs.
  assert (H : ∀ w, loans (storage w) = [] -> balance w = 0 ->
                   borrowerRiskScore (storage w) = ∅ ->
                   trustedOracle (storage w) = oracle ->
                   loans (storage (run w cs)) = [] ∧ balance (run w cs) = 0).
  { induction cs as [|c cs IH]; intros w Hl Hb Hm Ho; [done|].
    apply Forall_cons in Hcs as [Hc Hcs]. rewrite run_cons.
    assert (Hframe : borrowerRiskScore (storage (execute w c).1) = ∅).
    { rewrite <- Hm. apply execute_stranger_frame. by rewrite Ho. }
    assert (Ho' : trustedOracle (storage (execute w c).1) = oracle).
    { rewrite <- Ho. apply execute_keeps_oracle. }
    destruct (execute_cases w c) as [[e He]|Hcase].
    { rewrite He in *. by apply IH. }
    destruct c as [caller b s|caller t|msg tokens p t ca ct].
    - destruct Hcase as (_ & _ & He). rewrite He in *. by apply IH.
    - destruct Hcase as (_ & He). rewrite He in *. by apply IH.
    - destruct Hcase as (Hs & _). unfold scoreOf, mapping_read in Hs.
      rewrite Hm, lookup_empty in Hs. simpl in Hs. lia. }
  by apply H.
Qed.

Lemma no_loans_without_oracle_witness :
  loans (storage (run (constructor 900 sample_oracle)
     [ ApplyForLoan (mkMsg sample_borrower 5) accepting_tokens 10 12 5 0;
       SetRiskScore sample_borrower sample_borrower 100;
       ApplyForLoan (mkMsg sample_borrower 0) accepting_tokens 10 12 0 0 ])) = []
  ∧ balance (run (constructor 900 sample_oracle)
     [ ApplyForLoan (mkMsg sample_borrower 5) accepting_tokens 10 12 5 0;
       SetRiskScore sample_borrower sample_borrower 100;
       ApplyForLoan (mkMsg sample_borrower 0) accepting_tokens 10 12 0 0 ]) = 0.
Proof.
  apply (no_loans_without_oracle 900 sample_oracle).
  repeat (apply Forall_cons_2; [vm_compute; lia|]).
  apply Forall_nil_2.
Defined.

(** ** Scores last until they are overwritten *)

Lemma execute_keeps_other_scores w c b :
  writes_score b c = false ->
  borrowerRiskScore (storage (execute w c).1) !! b
  = borrowerRiskScore (storage w) !! b.
Proof.
  intros Hc.
  destruct (execute_cases w c) as [[e ->]|Hcase]; [done|].
  destruct c as [caller b' s|caller t|msg tokens p t ca ct].
  - destruct Hcase as (_ & _ & ->); simpl.
    simpl in Hc. apply N.eqb_neq in Hc. by rewrite lookup_insert_ne.
  - by destruct Hcase as (_ & ->).
  - by destruct Hcase as (_ & _ & _ & ->).
Qed.

Lemma run_keeps_other_scores cs w b :
  Forall (λ c, writes_score b c = false) cs ->
  borrowerRiskScore (storage (run w cs)) !! b = borrowerRiskScore (storage w) !! b.
Proof.
  revert w. induction cs as [|c cs IH]; intros w Hcs; [done|].
  apply Forall_cons in Hcs as [Hc Hcs].
  rewrite run_cons, IH by done. by apply execute_keeps_other_scores.
Qed.

(** X14: a score written by the oracle is read back unchanged after any
    sequence of calls that does not set that borrower's score again (loan
    applications, whitelisting, scores of other borrowers), and a later
    successful application by that borrower is priced with it. *)
Theorem score_lasts_until_overwritten w caller b s w1 cs :
  execute w (SetRiskScore caller b s) = (w1, Success) ->
  Forall (λ c, writes_score b c = false) cs ->
  get_borrowerRiskScore b (run w1 cs) = Done s (run w1 cs)
  ∧ (∀ v tokens p t ca ct w2,
       execute (run w1 cs) (ApplyForLoan (mkMsg b v) tokens p t ca ct) = (w2, Success) ->
       ∃ l, last (loans (storage w2)) = Some l ∧ interestRate l = 100 / s).
Proof.
  intros Hex Hcs.
  assert (Hs : scoreOf (run w1 cs) b = s).
  { unfold scoreOf, mapping_read. rewrite run_keeps_other_scores by done.
    by rewrite (scored_is_present _ _ _ _ _ Hex). }
  split.
  - unfold get_borrowerRiskScore, sload. fold (scoreOf (run w1 cs) b). by rewrite Hs.
  - intros v tokens p t ca ct w2 Hloan.
    apply execute_applyForLoan_Success in Hloan as (_ & _ & -> & _); simpl.
    rewrite last_snoc. eexists; split; [reflexivity|]. simpl. by rewrite Hs.
Qed.

Lemma score_lasts_until_overwritten_witness :
  let w1 := sample_scored 50 in
  let cs := [ ApplyForLoan (mkMsg sample_borrower 5) accepting_tokens 10 12 5 0;
              SetRiskScore sample_oracle sample_stranger 10;
              AddCollateralToken sample_oracle sample_token ] in
  get_borrowerRiskScore sample_borrower (run w1 cs) = Done 50 (run w1 cs).
Proof.
  intros w1 cs.
  apply (score_lasts_until_overwritten sample_deployed sample_oracle
           sample_borrower 50 w1 cs).
  - vm_compute; reflexivity.
  - repeat (apply Forall_cons_2; [vm_compute; reflexivity|]).
    apply Forall_nil_2.
Defined.

(** ** Whitelisting *)

(** X15: whitelisting a token that is already on the whitelist succeeds,
    leaves the storage exactly as it was, and emits CollateralAdded again. *)
Theorem addCollateralToken_twice w t :
  isSupported w t = true ->
  execute w (AddCollateralToken (trustedOracle (storage w)) t)
  = (mkWorld (this w) (balance w) (storage w) (logs w ++ [CollateralAdded t])
             (pulls w), Success).
Proof.
  intros Ht.
  destruct (execute_cases w (AddCollateralToken (trustedOracle (storage w)) t))
    as [[e He]|(_ & He)].
  - unfold execute in He; simpl in He.
    rewrite credit_0, addCollateralToken_eq, N.eqb_refl in He. discriminate.
  - rewrite He. unfold whitelisted. do 2 f_equal.
    unfold isSupported, mapping_read in Ht.
    destruct (supportedCollateral (storage w) !! t) as [[|]|] eqn:Hl;
      try discriminate.
    rewrite insert_id by done. by destruct (storage w).
Qed.

Lemma addCollateralToken_twice_witness :
  execute (run (constructor 900 sample_oracle) sample_history)
    (AddCollateralToken
       (trustedOracle (storage (run (constructor 900 sample_oracle) sample_history)))
       sample_token)
  = (mkWorld (this (run (constructor 900 sample_oracle) sample_history))
       (balance (run (constructor 900 sample_oracle) sample_history))
       (storage (run (constructor 900 sample_oracle) sample_history))
       (logs (run (constructor 900 sample_oracle) sample_history)
          ++ [CollateralAdded sample_token])
       (pulls (run (constructor 900 sample_oracle) sample_history)), Success).
Proof.
  apply (addCollateralToken_twice
           (run (constructor 900 sample_oracle) sample_history) sample_token).
  vm_compute; reflexivity.
Defined.

(** X16: a token that is refused for not being whitelisted is accepted once
    the oracle has whitelisted it: the same application that failed with
    UnsupportedCollateral then succeeds and records the loan. *)
Theorem whitelisting_unblocks_token w msg tokens p t ca ct :
  1 <= scoreOf w (sender msg) ->
  ct ≠ address0 ->
  isSupported w ct = false ->
  value msg = 0 ->
  tokens ct (sender msg) (this w) ca = Returns true ->
  nextLoanId (storage w) < MAX_UINT256 ->
  execute w (ApplyForLoan msg tokens p t ca ct) = (w, Reverted UnsupportedCollateral)
  ∧ ∃ w1 w2,
      execute w (AddCollateralToken (trustedOracle (storage w)) ct) = (w1, Success)
      ∧ execute w1 (ApplyForLoan msg tokens p t ca ct) = (w2, Success)
      ∧ loans (storage w2)
        = loans (storage w) ++
            [mkLoan (nextLoanId (storage w)) (sender msg) p
                    (100 / scoreOf w (sender msg)) t ca ct false].
Proof.
  intros Hs Hct Hno Hv Hreply Hn.
  split.
  { destruct (execute_cases w (ApplyForLoan msg tokens p t ca ct))
      as [[e He]|(_ & _ & [[? _]|(_ & Hyes & _)] & _)]; [|done|congruence].
    rewrite He. f_equal. f_equal.
    unfold execute in He; simpl in He.
    rewrite Hv, credit_0, applyForLoan_eq, collateralHandling_eq, Hno in He.
    destruct (N.ltb_spec 0 (scoreOf w (sender msg))); [|lia].
    unfold address0 in Hct. destruct (N.eqb_spec ct 0); [done|].
    by injection He as <-. }
  exists (whitelisted w ct).
  destruct (execute_cases w (AddCollateralToken (trustedOracle (storage w)) ct))
    as [[e He]|(_ & He)].
  { unfold execute in He; simpl in He.
    rewrite credit_0, addCollateralToken_eq, N.eqb_refl in He. discriminate. }
  assert (Hok : ∃ w2, execute (whitelisted w ct) (ApplyForLoan msg tokens p t ca ct)
                      = (w2, Success)).
  { apply execute_applyForLoan_Success_iff. split; [exact Hs|]. split; [|exact Hn].
    right. split; [done|]. split; [|done].
    unfold isSupported, mapping_read; simpl. by rewrite lookup_insert_eq. }
  destruct Hok as [w2 Hw2]. exists w2. split; [exact He|]. split; [exact Hw2|].
  apply execute_applyForLoan_Success in Hw2 as (_ & _ & -> & _). done.
Qed.

Lemma whitelisting_unblocks_token_witness :
  let w := sample_scored 50 in
  let c := ApplyForLoan (mkMsg sample_borrower 0) accepting_tokens 20 6 3 sample_token in
  execute w c = (w, Reverted UnsupportedCollateral)
  ∧ ∃ w1 w2,
      execute w (AddCollateralToken (trustedOracle (storage w)) sample_token)
      = (w1, Success)
      ∧ execute w1 c = (w2, Success)
      ∧ loans (storage w2)
        = loans (storage w) ++
            [mkLoan (nextLoanId (storage w)) sample_borrower 20
                    (100 / scoreOf w sample_borrower) 6 3 sample_token false].
Proof.
  intros w c.
  apply (whitelisting_unblocks_token w (mkMsg sample_borrower 0) accepting_tokens
           20 6 3 sample_token).
  - replace (scoreOf w (sender (mkMsg sample_borrower 0))) with 50
      by (vm_compute; reflexivity).
    lia.
  - unfold address0, sample_token; lia.
  - vm_compute; reflexivity.
  - reflexivity.
  - reflexivity.
  - vm_compute; reflexivity.
Defined.

(** ** ETH collateral *)

(** X17: an application with ETH collateral never calls a token and never
    looks at the whitelist: its result is the same whatever the token
    contracts would answer, it requests no transfer, and when it succeeds the
    contract's balance grows by exactly collateralAmount. *)
Theorem eth_application_calls_no_token w msg tokens tokens' p t ca :
  execute w (ApplyForLoan msg tokens p t ca address0)
  = execute w (ApplyForLoan msg tokens' p t ca address0)
  ∧ pulls (execute w (ApplyForLoan msg tokens p t ca address0)).1 = pulls w
  ∧ (∀ w', execute w (ApplyForLoan msg tokens p t ca address0) = (w', Success) ->
           balance w' = balance w + ca).
Proof.
  split; [|split].
  - unfold execute; simpl.
    rewrite !applyForLoan_eq, !collateralHandling_eq; simpl. reflexivity.
  - destruct (execute_cases w (ApplyForLoan msg tokens p t ca address0))
      as [[e ->]|(_ & _ & _ & ->)]; simpl; [done|]. by rewrite app_nil_r.
  - intros w' Hex.
    destruct (execute_cases w (ApplyForLoan msg tokens p t ca address0))
      as [[e He]|(_ & _ & Hc & He)]; [congruence|].
    rewrite He in Hex. injection Hex as <-. simpl.
    destruct Hc as [[_ ->]|[? _]]; done.
Qed.

(** ** The top of the counter *)

(** X18: when nextLoanId has reached 2^256 - 1, an application that passes
    every check (a scored caller, and ETH or token collateral in order)
    pushes its loan and then aborts in the checked increment with the
    arithmetic panic; the transaction is rolled back, so the pushed loan (and
    the token transfer, if one was made) is gone and the world is unchanged. *)
Theorem saturated_counter_panics w msg tokens p t ca ct :
  nextLoanId (storage w) = MAX_UINT256 ->
  1 <= scoreOf w (sender msg) ->
  (ct = address0 ∧ value msg = ca)
  ∨ (ct ≠ address0 ∧ isSupported w ct = true ∧ value msg = 0
     ∧ tokens ct (sender msg) (this w) ca = Returns true) ->
  let entered := credit (value msg) w in
  ∃ w1,
    collateralHandling msg tokens ca ct entered = Done tt w1
    ∧ applyForLoan msg tokens p t ca ct entered
      = Abort (Panic PANIC_ARITHMETIC)
              (pushed msg (scoreOf w (sender msg)) p t ca ct w1)
    ∧ loans (storage (pushed msg (scoreOf w (sender msg)) p t ca ct w1))
      = loans (storage w) ++
          [mkLoan MAX_UINT256 (sender msg) p (100 / scoreOf w (sender msg))
                  t ca ct false]
    ∧ execute w (ApplyForLoan msg tokens p t ca ct)
      = (w, Reverted (Panic PANIC_ARITHMETIC)).
Proof.
  intros Hn Hs Hcoll entered.
  destruct (proj2 (collateralHandling_Done_iff msg tokens ca ct entered) Hcoll)
    as [w1 Hc].
  pose proof (collateralHandling_Done _ _ _ _ _ _ _ Hc) as (_ & _ & Hst & _).
  change (storage entered) with (storage w) in Hst.
  assert (Hbody : applyForLoan msg tokens p t ca ct entered
                  = Abort (Panic PANIC_ARITHMETIC)
                      (pushed msg (scoreOf w (sender msg)) p t ca ct w1)).
  { rewrite applyForLoan_eq, Hc.
    change (scoreOf entered (sender msg)) with (scoreOf w (sender msg)).
    destruct (N.ltb_spec 0 (scoreOf w (sender msg))); [|lia].
    rewrite recordLoan_eq.
    destruct (N.eqb_spec (scoreOf w (sender msg)) 0); [lia|].
    rewrite Hst, Hn.
    destruct (N.leb_spec (MAX_UINT256 + 1) MAX_UINT256); [lia|]. reflexivity. }
  exists w1. split; [exact Hc|]. split; [exact Hbody|]. split.
  - unfold pushed; simpl. by rewrite Hst, Hn.
  - unfold execute; simpl. fold entered. by rewrite Hbody.
Qed.

Lemma saturated_counter_panics_witness :
  execute sample_saturated
    (ApplyForLoan (mkMsg sample_borrower 5) accepting_tokens 10 12 5 address0)
  = (sample_saturated, Reverted (Panic PANIC_ARITHMETIC))
  ∧ execute sample_saturated_listed
      (ApplyForLoan (mkMsg sample_borrower 0) accepting_tokens 10 12 3 sample_token)
    = (sample_saturated_listed, Reverted (Panic PANIC_ARITHMETIC)).
Proof.
  split.
  - destruct (saturated_counter_panics sample_saturated (mkMsg sample_borrower 5)
                accepting_tokens 10 12 5 address0) as (w1 & _ & _ & _ & H).
    + reflexivity.
    + replace (scoreOf sample_saturated (sender (mkMsg sample_borrower 5))) with 50
        by (vm_compute; reflexivity).
      lia.
    + left. split; reflexivity.
    + exact H.
  - destruct (saturated_counter_panics sample_saturated_listed
                (mkMsg sample_borrower 0) accepting_tokens 10 12 3 sample_token)
      as (w1 & _ & _ & _ & H).
    + reflexivity.
    + replace (scoreOf sample_saturated_listed (sender (mkMsg sample_borrower 0)))
        with 50 by (vm_compute; reflexivity).
      lia.
    + right. split; [unfold address0, sample_token; lia|].
      split; [vm_compute; reflexivity|]. split; reflexivity.
    + exact H.
Defined.

(** ** A reverting token *)

(** X19: when the token's transferFrom itself reverts, applyForLoan fails
    with the token's failure (not with the contract's own "transfer failed"
    reason) and the transaction leaves the world unchanged. *)
Theorem reverting_token_propagates w msg tokens p t ca ct :
  1 <= scoreOf w (sender msg) ->
  ct ≠ address0 ->
  isSupported w ct = true ->
  value msg = 0 ->
  tokens ct (sender msg) (this w) ca = Reverts ->
  execute w (ApplyForLoan msg tokens p t ca ct) = (w, Reverted Callee_reverted)
  ∧ Callee_reverted ≠ TransferFailed.
Proof.
  intros Hs Hct Hsup Hv Hreply.
  split; [by apply applyForLoan_token_reverts|discriminate].
Qed.

Lemma reverting_token_propagates_witness :
  let w := run (constructor 900 sample_oracle) sample_history in
  execute w (ApplyForLoan (mkMsg sample_borrower 0) reverting_tokens 20 6 3 sample_token)
  = (w, Reverted Callee_reverted).
Proof.
  intros w.
  apply (reverting_token_propagates w (mkMsg sample_borrower 0) reverting_tokens
           20 6 3 sample_token).
  - replace (scoreOf w (sender (mkMsg sample_borrower 0))) with 50
      by (vm_compute; reflexivity).
    lia.
  - unfold address0, sample_token; lia.
  - vm_compute; reflexivity.
  - reflexivity.
  - reflexivity.
Defined.

(** ** Finding a loan again *)

(** X20: the loan recorded by a successful application sits at index
    loanId - 1 of the ledger, holds exactly the caller and the arguments of
    the call, and is found there unchanged after any further calls. *)
Theorem issued_loan_stays_at_its_index self oracle cs msg tokens p t ca ct w' cs' :
  let w := run (constructor self oracle) cs in
  execute w (ApplyForLoan msg tokens p t ca ct) = (w', Success) ->
  loans (storage (run w' cs')) !! N.to_nat (nextLoanId (storage w) - 1)
  = Some (mkLoan (nextLoanId (storage w)) (sender msg) p
                 (100 / scoreOf w (sender msg)) t ca ct false).
Proof.
  intros w Hex.
  assert (Hnum : ledger_numbered w)
    by apply run_ledger_numbered, constructor_ledger_numbered.
  destruct Hnum as [_ Hnext].
  apply execute_applyForLoan_Success in Hex as (_ & _ & Hst & _).
  apply prefix_lookup_Some with (l1 := loans (storage w')); [|apply run_ledger_prefix].
  rewrite Hst; simpl. apply list_lookup_middle.
  rewrite Hnext. lia.
Qed.

Lemma issued_loan_stays_at_its_index_witness :
  let w := run (constructor 900 sample_oracle) sample_history in
  let msg := mkMsg sample_borrower 7 in
  let w' := (execute w (ApplyForLoan msg accepting_tokens 30 9 7 0)).1 in
  loans (storage (run w' sample_history)) !! N.to_nat (nextLoanId (storage w) - 1)
  = Some (mkLoan (nextLoanId (storage w)) (sender msg) 30
                 (100 / scoreOf w (sender msg)) 9 7 0 false).
Proof.
  intros w msg w'.
  apply (issued_loan_stays_at_its_index 900 sample_oracle sample_history
           msg accepting_tokens 30 9 7 0 w' sample_history).
  vm_compute; reflexivity.
Defined.

(** * The deployment script *)

(** X21: the deployment script always goes through, whatever the addresses:
    it leaves a platform whose oracle is the second signer, whose whitelist
    holds MockUSDC and nothing else, with an empty ledger, no ETH and
    nextLoanId = 1; as nobody has a score yet, every loan application made
    right after deployment fails with NotScored. *)
Theorem deploy_main_sets_up_platform lendingPlatform oracle mockUsdc :
  ∃ w, deploy_main lendingPlatform oracle mockUsdc = (w, Success)
       ∧ this w = lendingPlatform
       ∧ trustedOracle (storage w) = oracle
       ∧ isSupported w mockUsdc = true
       ∧ (∀ t, t ≠ mockUsdc -> isSupported w t = false)
       ∧ loans (storage w) = []
       ∧ nextLoanId (storage w) = 1
       ∧ balance w = 0
       ∧ (∀ msg tokens p t ca ct,
            execute w (ApplyForLoan msg tokens p t ca ct) = (w, Reverted NotScored)).
Proof.
  unfold deploy_main.
  destruct (execute_cases (constructor lendingPlatform oracle)
              (AddCollateralToken oracle mockUsdc)) as [[e He]|(_ & He)].
  { unfold execute in He; simpl in He.
    rewrite addCollateralToken_eq in He; simpl in He.
    rewrite N.eqb_refl in He. discriminate. }
  eexists; split; [exact He|]. simpl.
  repeat (split; [done|]).
  split; [unfold isSupported, mapping_read; simpl; by rewrite lookup_insert_eq|].
  split.
  { intros t Ht. unfold isSupported, mapping_read; simpl.
    by rewrite lookup_insert_ne, lookup_empty. }
  repeat (split; [done|]).
  intros msg tokens p t ca ct.
  unfold execute; simpl. rewrite applyForLoan_eq.
  unfold scoreOf, mapping_read; simpl. by rewrite lookup_empty.
Qed.

Lemma deploy_main_sets_up_platform_aux lendingPlatform oracle mockUsdc :
  (deploy_main lendingPlatform oracle mockUsdc).1
  = whitelisted (constructor lendingPlatform oracle) mockUsdc
  ∧ nextLoanId (storage (whitelisted (constructor lendingPlatform oracle) mockUsdc))
    < MAX_UINT256.
Proof.
  split; [|by vm_compute].
  unfold deploy_main.
  destruct (execute_cases (constructor lendingPlatform oracle)
              (AddCollateralToken oracle mockUsdc)) as [[e He]|(_ & He)].
  - unfold execute in He; simpl in He.
    rewrite addCollateralToken_eq in He; simpl in He.
    rewrite N.eqb_refl in He. discriminate.
  - by rewrite He.
Qed.

(** X22: from deployment to a loan: on the platform the script deployed,
    once the oracle has given a borrower a score s in 1..100, that borrower's
    application backed by MockUSDC (no ETH sent, the token accepting the
    transfer) succeeds; it is loan number 1, with rate 100 / s, and the one
    transfer requested is of collateralAmount from the borrower to the
    platform. *)
Theorem deployed_platform_lends_against_usdc
    lendingPlatform oracle mockUsdc b s tokens p t ca :
  1 <= s <= 100 ->
  mockUsdc ≠ address0 ->
  tokens mockUsdc b lendingPlatform ca = Returns true ->
  let w0 := (deploy_main lendingPlatform oracle mockUsdc).1 in
  ∃ w1 w2,
    execute w0 (SetRiskScore oracle b s) = (w1, Success)
    ∧ execute w1 (ApplyForLoan (mkMsg b 0) tokens p t ca mockUsdc) = (w2, Success)
    ∧ loans (storage w2) = [mkLoan 1 b p (100 / s) t ca mockUsdc false]
    ∧ pulls w2 = [mkPull mockUsdc b lendingPlatform ca true]
    ∧ balance w2 = 0.
Proof.
  intros [Hs1 Hs2] Hne Hreply w0.
  destruct (deploy_main_sets_up_platform_aux lendingPlatform oracle mockUsdc)
    as (Hw0 & Hmax).
  fold w0 in Hw0. rewrite Hw0.
  set (w := whitelisted (constructor lendingPlatform oracle) mockUsdc) in *.
  destruct (execute_cases w (SetRiskScore oracle b s)) as [[e He]|(_ & _ & He)].
  { unfold execute in He; simpl in He.
    rewrite setRiskScore_eq in He; simpl in He. rewrite N.eqb_refl in He.
    destruct (N.leb_spec s 100); [discriminate|lia]. }
  exists (scored w b s).
  assert (Hscore : scoreOf (scored w b s) b = s).
  { unfold scoreOf, mapping_read; simpl. by rewrite lookup_insert_eq. }
  assert (Hok : ∃ w2, execute (scored w b s)
                        (ApplyForLoan (mkMsg b 0) tokens p t ca mockUsdc)
                      = (w2, Success)).
  { apply execute_applyForLoan_Success_iff. simpl. rewrite Hscore.
    split; [lia|]. split; [|exact Hmax].
    right. split; [done|]. split; [|done].
    unfold isSupported, mapping_read; simpl. by rewrite lookup_insert_eq. }
  destruct Hok as [w2 Hw2]. exists w2.
  split; [exact He|]. split; [exact Hw2|].
  apply execute_applyForLoan_Success in Hw2
    as (_ & _ & Hst & Hb & _ & Hp & _).
  rewrite Hst, Hb, Hp; simpl. rewrite Hscore.
  unfold address0 in *. destruct (N.eqb_spec mockUsdc 0); done.
Qed.

Lemma deployed_platform_lends_against_usdc_witness :
  let w0 := (deploy_main 900 sample_oracle sample_token).1 in
  ∃ w1 w2,
    execute w0 (SetRiskScore sample_oracle sample_borrower 40) = (w1, Success)
    ∧ execute w1 (ApplyForLoan (mkMsg sample_borrower 0) accepting_tokens 20 6 3
                    sample_token) = (w2, Success)
    ∧ loans (storage w2)
      = [mkLoan 1 sample_borrower 20 (100 / 40) 6 3 sample_token false]
    ∧ pulls w2 = [mkPull sample_token sample_borrower 900 3 true]
    ∧ balance w2 = 0.
Proof.
  apply (deployed_platform_lends_against_usdc 900 sample_oracle sample_token
           sample_borrower 40 accepting_tokens 20 6 3).
  - lia.
  - unfold address0, sample_token; lia.
  - reflexivity.
Defined.
